(** * utils_stock: risk/return statistics and the max-Sharpe set-up

    A shallow embedding of [utils_stock.py].

    Numbers.  A Python/NumPy float is modelled by [float]: a real number
    [Num r], or one of the three non-finite values [NaN], [PInf], [NInf].
    Arithmetic on [Num] is exact real arithmetic: rounding, overflow and
    the sign of zero are not modelled.  Division by zero, the logarithm of
    a non-positive number, statistics of an empty series and the like yield
    the non-finite value NumPy yields.  The properties proved on this
    model are properties of the formulas the code evaluates.

    Rounding.  Module [Float64] evaluates the same expressions on IEEE
    binary64 numbers; module [Float64Facts] computes, at concrete inputs,
    what rounding changes.

    Tables.  A pandas [Series] is a list of cells; a [DataFrame] is a row
    count together with its columns.  Input tables hold finite numbers
    (cells of type [R]); tables computed by the code hold [float] cells.

    Errors.  A function that can raise returns a [result].

    Not embedded: [load_prices_csv] (file input) and
    [quick_max_sharpe_from_csv], which chains the file input with the
    functions below. *)

From Stdlib Require Import String.
From Stdlib Require Import Reals Lra Lia List ZArith Bool Sorted Permutation.
From Stdlib Require PrimFloat.
Import ListNotations.
Open Scope R_scope.

(* ================================================================== *)
(** ** Floats *)

Inductive float : Type :=
| Num (r : R)
| NaN
| PInf
| NInf.

Definition is_nan (x : float) : bool :=
  match x with NaN => true | _ => false end.

Definition fneg (x : float) : float :=
  match x with
  | Num r => Num (- r)
  | NaN => NaN
  | PInf => NInf
  | NInf => PInf
  end.

Definition fadd (x y : float) : float :=
  match x, y with
  | Num a, Num b => Num (a + b)
  | NaN, _ | _, NaN => NaN
  | PInf, NInf | NInf, PInf => NaN
  | PInf, _ | _, PInf => PInf
  | NInf, _ | _, NInf => NInf
  end.

Definition fsub (x y : float) : float := fadd x (fneg y).

(** The infinity whose sign is the sign of [a] times the sign of [inf];
    [0 * inf] is NaN. *)
Definition scale_inf (a : R) (inf : float) : float :=
  if Req_dec_T a 0 then NaN
  else if Rlt_dec 0 a then inf else fneg inf.

Definition fmul (x y : float) : float :=
  match x, y with
  | Num a, Num b => Num (a * b)
  | NaN, _ | _, NaN => NaN
  | Num a, inf => scale_inf a inf
  | inf, Num a => scale_inf a inf
  | PInf, PInf | NInf, NInf => PInf
  | PInf, NInf | NInf, PInf => NInf
  end.

Definition fdiv (x y : float) : float :=
  match x, y with
  | Num a, Num b =>
      if Req_dec_T b 0 then scale_inf a PInf else Num (a / b)
  | NaN, _ | _, NaN => NaN
  | Num _, _ => Num 0
  | inf, Num b => if Rlt_dec b 0 then fneg inf else inf
  | _, _ => NaN
  end.

(** [np.sqrt] and [np.log]. *)
Definition fsqrt (x : float) : float :=
  match x with
  | Num a => if Rlt_dec a 0 then NaN else Num (sqrt a)
  | PInf => PInf
  | _ => NaN
  end.

Definition flog (x : float) : float :=
  match x with
  | Num a =>
      if Rlt_dec 0 a then Num (ln a)
      else if Req_dec_T a 0 then NInf else NaN
  | PInf => PInf
  | _ => NaN
  end.

(** [x <= y]; every comparison with NaN is false. *)
Definition fle (x y : float) : bool :=
  match x, y with
  | NaN, _ | _, NaN => false
  | NInf, _ | _, PInf => true
  | Num a, Num b => if Rle_dec a b then true else false
  | _, _ => false
  end.

(** Minimum of two cells that skips NaN (pandas' [skipna=True]). *)
Definition fmin2 (x y : float) : float :=
  match x, y with
  | NaN, _ => y
  | _, NaN => x
  | NInf, _ | _, NInf => NInf
  | PInf, _ => y
  | _, PInf => x
  | Num a, Num b => Num (Rmin a b)
  end.

(* ================================================================== *)
(** ** Results *)

Inductive exn : Type :=
| ValueError (msg : string)
| KeyError (key : string).

Inductive result (A : Type) : Type :=
| Ok (a : A)
| Raise (e : exn).

Arguments Ok {A} a.
Arguments Raise {A} e.

Definition bind {A B : Type} (m : result A) (k : A -> result B) : result B :=
  match m with
  | Ok a => k a
  | Raise e => Raise e
  end.

Notation "x <- m ;; k" := (bind m (fun x => k))
  (at level 61, m at next level, right associativity).

(* ================================================================== *)
(** ** Series and tables *)

Definition Series (A : Type) : Type := list A.

Record DataFrame (A : Type) : Type := mkDataFrame {
  nrows : nat;
  columns : list (Series A)
}.

Arguments mkDataFrame {A} nrows columns.
Arguments nrows {A} d.
Arguments columns {A} d.

(** Every column has [nrows] cells. *)
Definition well_formed {A : Type} (df : DataFrame A) : Prop :=
  Forall (fun c => length c = nrows df) (columns df).

Definition frame_map {A B : Type} (f : Series A -> Series B)
    (df : DataFrame A) : DataFrame B :=
  mkDataFrame (nrows df) (map f (columns df)).

(** [map2 f xs ys]: cell-wise operation on two aligned series. *)
Fixpoint map2 {A B C : Type} (f : A -> B -> C) (xs : list A) (ys : list B)
    : list C :=
  match xs, ys with
  | x :: xs', y :: ys' => f x y :: map2 f xs' ys'
  | _, _ => []
  end.

(* ================================================================== *)
(** ** to_returns *)

(** [changes f prev rest]: [f cur prev] for every cell of [rest], each
    time with the cell before it. *)
Fixpoint changes {A B : Type} (f : A -> A -> B) (prev : A) (rest : list A)
    : list B :=
  match rest with
  | [] => []
  | cur :: tl => f cur prev :: changes f cur tl
  end.

(** [Series.pct_change()] on a series of finite numbers:
    [P_t / P_{t-1} - 1], the first cell missing. *)
Definition pct_change (c : Series R) : Series float :=
  match c with
  | [] => []
  | p0 :: rest =>
      NaN :: changes (fun cur prev => fsub (fdiv (Num cur) (Num prev)) (Num 1))
               p0 rest
  end.

(** [Series.diff()]: [x_t - x_{t-1}], the first cell missing. *)
Definition diff (c : Series float) : Series float :=
  match c with
  | [] => []
  | x0 :: rest => NaN :: changes (fun cur prev => fsub cur prev) x0 rest
  end.

Definition np_log (c : Series R) : Series float :=
  map (fun p => flog (Num p)) c.

(** [DataFrame.dropna()]: keep the rows without a NaN cell. *)
Definition row_complete (cols : list (Series float)) (i : nat) : bool :=
  forallb (fun c => negb (is_nan (nth i c NaN))) cols.

Definition take_rows (rows : list nat) (c : Series float) : Series float :=
  map (fun i => nth i c NaN) rows.

Definition dropna (df : DataFrame float) : DataFrame float :=
  let kept := filter (row_complete (columns df)) (seq 0 (nrows df)) in
  mkDataFrame (length kept) (map (take_rows kept) (columns df)).

Definition to_returns (prices : DataFrame R) (method : string)
    (drop : bool) : result (DataFrame float) :=
  ret <- (if String.eqb method "simple" then
            Ok (frame_map pct_change prices)
          else if String.eqb method "log" then
            Ok (frame_map (fun c => diff (np_log c)) prices)
          else Raise (ValueError "method must be 'simple' or 'log'")) ;;
  Ok (if drop then dropna ret else ret).

(* ================================================================== *)
(** ** Statistics of a series *)

Definition sum (xs : list R) : R := fold_right Rplus 0 xs.

(** [Series.mean()]: NaN on an empty series. *)
Definition mean (xs : Series R) : float :=
  match xs with
  | [] => NaN
  | _ => Num (sum xs / INR (length xs))
  end.

(** [Series.std(ddof)]: the square root of the sum of squared deviations
    from the mean over [n - ddof]; NaN when [n <= ddof]. *)
Definition std (ddof : nat) (xs : Series R) : float :=
  let n := length xs in
  if (n <=? ddof)%nat then NaN
  else
    let m := sum xs / INR n in
    Num (sqrt (sum (map (fun x => (x - m) * (x - m)) xs) / INR (n - ddof))).

(** [Series.min()], skipping NaN. *)
Definition series_min (xs : Series float) : float :=
  fold_right fmin2 NaN xs.

(** [Series.cummax()] and [Series.cumprod()]. *)
Fixpoint cummax_from (m : R) (xs : list R) : list R :=
  match xs with
  | [] => []
  | x :: tl => let m' := Rmax m x in m' :: cummax_from m' tl
  end.

Definition cummax (xs : Series R) : Series R :=
  match xs with
  | [] => []
  | x :: tl => x :: cummax_from x tl
  end.

Fixpoint cumprod_from (acc : R) (xs : list R) : list R :=
  match xs with
  | [] => []
  | x :: tl => let acc' := acc * x in acc' :: cumprod_from acc' tl
  end.

Definition cumprod (xs : Series R) : Series R := cumprod_from 1 xs.

(** Ascending sort, by insertion. *)
Fixpoint insert_sorted (x : R) (s : list R) : list R :=
  match s with
  | [] => [x]
  | y :: tl => if Rle_dec x y then x :: s else y :: insert_sorted x tl
  end.

Definition sort (xs : list R) : list R := fold_right insert_sorted [] xs.

(** [Series.quantile(q)] with pandas' default linear interpolation: on the
    sorted values, position [h = (n - 1) * q], value
    [s[lo] + (s[lo+1] - s[lo]) * (h - lo)] with [lo = floor h]. *)
Definition quantile (xs : Series R) (q : R) : result float :=
  if Rle_dec 0 q then
    if Rle_dec q 1 then
      match sort xs with
      | [] => Ok NaN
      | (s0 :: _) as s =>
          let h := INR (length xs - 1) * q in
          let lo := Z.to_nat (Int_part h) in
          let a := nth lo s s0 in
          let b := nth (S lo) s a in
          Ok (Num (a + (b - a) * (h - IZR (Int_part h))))
      end
    else Raise (ValueError "percentiles should all be in the interval [0, 1]")
  else Raise (ValueError "percentiles should all be in the interval [0, 1]").

(* ================================================================== *)
(** ** Risk metrics *)

(** The dataclass [RiskStats]; its field [max_drawdown] is [rs_max_drawdown]
    here.  No function of the module builds one. *)
Record RiskStats : Type := mkRiskStats {
  ann_return : float;
  ann_vol : float;
  sharpe : float;
  cagr : float;
  rs_max_drawdown : float;
  cvar_95 : float
}.

Definition annualize_mean_vol (returns : DataFrame R) (periods_per_year : Z)
    : list float * list float :=
  let mu := map (fun c => fmul (mean c) (Num (IZR periods_per_year)))
                (columns returns) in
  let vol := map (fun c => fmul (std 0 c) (fsqrt (Num (IZR periods_per_year))))
                 (columns returns) in
  (mu, vol).

(** The argument of [sharpe_ratio] is a series or a table; the result is a
    float or one float per column. *)
Inductive returns_arg : Type :=
| OfSeries (s : Series R)
| OfFrame (df : DataFrame R).

Inductive sharpe_result : Type :=
| OneSharpe (x : float)
| SharpePerColumn (xs : list float).

Definition excess (rf : R) (s : Series R) : Series R :=
  map (fun r => r - rf) s.

(** Numerator and denominator of the series branch of [sharpe_ratio]. *)
Definition sharpe_ratio_num (returns : Series R) (rf : R)
    (periods_per_year : Z) : float :=
  fmul (mean (excess rf returns)) (Num (IZR periods_per_year)).

Definition sharpe_ratio_den (returns : Series R) (rf : R)
    (periods_per_year : Z) : float :=
  fmul (std 0 (excess rf returns)) (fsqrt (Num (IZR periods_per_year))).

Definition sharpe_ratio (returns : returns_arg) (rf : R)
    (periods_per_year : Z) : sharpe_result :=
  match returns with
  | OfSeries s =>
      OneSharpe (fdiv (sharpe_ratio_num s rf periods_per_year)
                      (sharpe_ratio_den s rf periods_per_year))
  | OfFrame df =>
      let ex := frame_map (excess rf) df in
      let '(mu, vol) := annualize_mean_vol ex periods_per_year in
      SharpePerColumn (map2 fdiv mu vol)
  end.

Definition max_drawdown (prices : Series R) : float :=
  let drawdown :=
    map2 (fun p m => fsub (fdiv (Num p) (Num m)) (Num 1))
         prices (cummax prices) in
  series_min drawdown.

Definition cvar (returns : Series R) (alpha : R) : result float :=
  q <- quantile returns (1 - alpha) ;;
  let tail := filter (fun r => fle (Num r) q) returns in
  Ok (fneg (mean tail)).

(* ================================================================== *)
(** ** portfolio_stats *)

(** [returns @ w]: one dot product per row; raises on a shape mismatch. *)
Definition row (df : DataFrame R) (i : nat) : list R :=
  map (fun c => nth i c 0) (columns df).

Definition dot (xs ys : list R) : R := sum (map2 Rmult xs ys).

Definition matmul (df : DataFrame R) (w : list R) : result (Series R) :=
  if (length (columns df) =? length w)%nat then
    Ok (map (fun i => dot (row df i) w) (seq 0 (nrows df)))
  else Raise (ValueError "Dot product shape mismatch").

(** A Python dict with string keys, in insertion order. *)
Definition dict : Type := list (string * float).

Fixpoint dict_get (d : dict) (k : string) : option float :=
  match d with
  | [] => None
  | (k', v) :: tl => if String.eqb k k' then Some v else dict_get tl k
  end.

Definition keys (d : dict) : list string := map fst d.

Definition portfolio_stats (weights : list R) (returns : DataFrame R)
    (rf : R) (periods_per_year : Z) : result dict :=
  port_ret <- matmul returns weights ;;
  let ann_ret := fmul (mean port_ret) (Num (IZR periods_per_year)) in
  let ann_vol := fmul (std 0 port_ret) (fsqrt (Num (IZR periods_per_year))) in
  let sharpe := fdiv (fsub ann_ret (Num rf)) (fadd ann_vol (Num 1e-12)) in
  let port_price := cumprod (map (fun r => 1 + r) port_ret) in
  let mdd := max_drawdown port_price in
  cvar95 <- cvar port_ret 0.95 ;;
  Ok [("ann_return"%string, ann_ret); ("ann_vol"%string, ann_vol);
      ("sharpe"%string, sharpe); ("max_drawdown"%string, mdd);
      ("cvar_95"%string, cvar95)].

(* ================================================================== *)
(** ** max_sharpe_weights *)

Section Optimizer.

(** [scipy.optimize.minimize(..., method="SLSQP")], reduced to the
    field [x] of its result: objective, initial point, bounds, the
    function of the equality constraint. *)
Variable minimize :
  (list R -> result float) -> list R -> list (R * R) -> (list R -> R) ->
  list R.

Definition max_sharpe_weights (returns : DataFrame R) (rf : R)
    (bounds : option (list (R * R))) (periods_per_year : Z)
    (x0 : option (list R)) : list R :=
  let n := length (columns returns) in
  let bounds := match bounds with
                | None => repeat (0, 1) n
                | Some b => b
                end in
  let x0 := match x0 with
            | None => map (fun one => one / INR n) (repeat 1 n)
            | Some x => x
            end in
  let neg_sharpe w :=
    st <- portfolio_stats w returns rf periods_per_year ;;
    match dict_get st "sharpe" with
    | Some s => Ok (fneg s)
    | None => Raise (KeyError "sharpe")
    end in
  minimize neg_sharpe x0 bounds (fun w => sum w - 1).

End Optimizer.

(* ================================================================== *)
(** ** The specification's formulas *)

(** Cumulative growth rebuilt from simple returns: the first price, then
    the first price times the running product of [1 + r]. *)
Definition rebuild_prices (first_price : R) (rets : list R) : list R :=
  first_price ::
  map (fun g => first_price * g) (cumprod (map (fun r => 1 + r) rets)).

(** Population (divide by [n]) and sample-corrected (divide by [n - 1])
    standard deviation. *)
Definition spec_mean (xs : list R) : R := sum xs / INR (length xs).

Definition squared_deviations (xs : list R) : R :=
  sum (map (fun x => (x - spec_mean xs) * (x - spec_mean xs)) xs).

Definition population_std (xs : list R) : R :=
  sqrt (squared_deviations xs / INR (length xs)).

Definition sample_std (xs : list R) : R :=
  sqrt (squared_deviations xs / (INR (length xs) - 1)).

(** [runningMax_t]: the maximum of [P_0 .. P_t], and the drawdown at [t]. *)
Definition running_max (ps : list R) (t : nat) : R :=
  fold_right Rmax (hd 0 ps) (firstn (S t) ps).

Definition drawdown_at (ps : list R) (t : nat) : R :=
  nth t ps 0 / running_max ps t - 1.

(** A table of positive prices. *)
Definition positive_prices (prices : DataFrame R) : Prop :=
  Forall (Forall (fun p => 0 < p)) (columns prices).

(** The exception of [to_returns]. *)
Definition invalid_method_error : exn :=
  ValueError "method must be 'simple' or 'log'".

(** Exact simple and log returns of a series that starts at [prev]. *)
Definition simple_returns (prev : R) (rest : list R) : list R :=
  changes (fun cur prev => cur / prev - 1) prev rest.

Definition log_returns (prev : R) (rest : list R) : list R :=
  changes (fun cur prev => ln cur - ln prev) prev rest.

(** A column that is one NaN followed by [n] numbers, and the numbers
    [g p0 rest] that follow the first cell of a price column. *)
Definition led_by_nan (n : nat) (c : Series float) : Prop :=
  exists vs, c = NaN :: map Num vs /\ length vs = n.

Definition numbers_after_first (g : R -> list R -> list R) (c : Series R)
    : Series float :=
  match c with
  | [] => []
  | p0 :: rest => map Num (g p0 rest)
  end.

(** Scenario A of the specification: the simple returns of the prices
    100, 101, 102, 101 and 50, 49, 50, 51. *)
Definition scenario_a_returns : DataFrame R :=
  mkDataFrame 3 [[1 / 100; 1 / 101; -1 / 102]; [-1 / 50; 1 / 49; 1 / 50]].

(* ================================================================== *)
(** ** cagr_from_prices *)

(** A price series with its [DatetimeIndex]: each cell carries its
    timestamp, in nanoseconds since the epoch. *)
Definition DatedSeries : Type := list (Z * R).

Definition ns_per_day : Z := 86400000000000.

(** [(later - earlier).days]: whole days, rounded towards minus
    infinity. *)
Definition timedelta_days (later earlier : Z) : Z :=
  ((later - earlier) / ns_per_day)%Z.

Inductive py_error : Type :=
| IndexError
| ZeroDivisionError.

(** [x ** e] for a float [x] and an exponent [e] that is neither zero nor
    an integer, as [365.25 / days] is for every non-zero integer [days]. *)
Definition fpow_frac (x : float) (e : R) : float :=
  match x with
  | Num b =>
      if Rlt_dec 0 b then Num (Rpower b e)
      else if Req_dec_T b 0 then (if Rlt_dec 0 e then Num 0 else PInf)
      else NaN
  | NaN => NaN
  | _ => if Rlt_dec 0 e then PInf else Num 0
  end.

(** [prices.index[-1]] raises on an empty series; [1/years] raises when
    the whole-day span, hence [years], is zero. *)
Definition cagr_from_prices (prices : DatedSeries) : py_error + float :=
  match prices with
  | [] => inl IndexError
  | first :: _ =>
      let final := last prices first in
      let days := timedelta_days (fst final) (fst first) in
      let years := IZR days / 365.25 in
      if (days =? 0)%Z then inl ZeroDivisionError
      else inr (fsub (fpow_frac (fdiv (Num (snd final)) (Num (snd first)))
                                (1 / years))
                     (Num 1))
  end.

(** The difference of the two timestamps fits the signed 64-bit
    nanosecond count of a [Timedelta]. *)
Definition timedelta_in_range (later earlier : Z) : Prop :=
  (- 2 ^ 63 < later - earlier < 2 ^ 63)%Z.

(** The elapsed years of a series, as [cagr_from_prices] computes them. *)
Definition elapsed_years (prices : DatedSeries) : R :=
  match prices with
  | [] => 0
  | first :: _ =>
      IZR (timedelta_days (fst (last prices first)) (fst first)) / 365.25
  end.

(* ================================================================== *)
(** ** The same functions in binary64 *)

(** The definitions above compute with exact real numbers.  This module
    evaluates the same source expressions with IEEE binary64 numbers
    (the kernel's primitive floats), rounding included, so that what
    rounding does at a concrete input can be computed.  Sums run left to
    right, as NumPy adds fewer than eight values. *)
Module Float64.

Import PrimFloat.
Local Open Scope float_scope.

Definition sum (xs : list float) : float := fold_left add xs 0.

Fixpoint of_pos (p : positive) : float :=
  match p with
  | xH => 1
  | xO q => 2 * of_pos q
  | xI q => 2 * of_pos q + 1
  end.

Definition of_int (z : Z) : float :=
  match z with
  | Z0 => 0
  | Zpos p => of_pos p
  | Zneg p => - of_pos p
  end.

Definition count (xs : list float) : float :=
  of_int (Z.of_nat (length xs)).

(** [Series.mean()]; 0/0 is NaN on the empty series. *)
Definition mean (xs : list float) : float := sum xs / count xs.

(** [Series.std(ddof=0)], as pandas computes it: the mean, the squared
    differences from it, their sum over the count, the square root. *)
Definition std0 (xs : list float) : float :=
  let avg := mean xs in
  sqrt (sum (map (fun x => (avg - x) * (avg - x)) xs) / count xs).

(** The series branch of [sharpe_ratio], and its denominator. *)
Definition sharpe_ratio_den (returns : list float) (rf : float)
    (periods_per_year : Z) : float :=
  std0 (map (fun r => r - rf) returns) * sqrt (of_int periods_per_year).

Definition sharpe_ratio (returns : list float) (rf : float)
    (periods_per_year : Z) : float :=
  let ex := map (fun r => r - rf) returns in
  (mean ex * of_int periods_per_year)
  / (std0 ex * sqrt (of_int periods_per_year)).

Fixpoint insert_sorted (x : float) (s : list float) : list float :=
  match s with
  | [] => [x]
  | y :: tl => if leb x y then x :: s else y :: insert_sorted x tl
  end.

Definition sort (xs : list float) : list float :=
  fold_right insert_sorted [] xs.

(** The largest [k <= bound] with [k <= h]: the floor of a position. *)
Fixpoint floor_upto (h : float) (bound : nat) : nat :=
  match bound with
  | O => O
  | S k => if leb (of_int (Z.of_nat bound)) h then bound else floor_upto h k
  end.

(** [Series.quantile(q)] on a non-empty series of numbers, for a level
    between 0 and 1: linear interpolation between the two sorted values
    around position [(n - 1) * q]. *)
Definition quantile (xs : list float) (q : float) : float :=
  let s := sort xs in
  let h := of_int (Z.of_nat (length xs - 1)) * q in
  let lo := floor_upto h (length xs - 1) in
  let a := nth lo s nan in
  let b := nth (S lo) s a in
  let t := h - of_int (Z.of_nat lo) in
  if leb 0.5 t then b - (b - a) * (1 - t) else a + (b - a) * t.

Definition cvar (returns : list float) (alpha : float) : float :=
  let q := quantile returns (1 - alpha) in
  let tail := filter (fun r => leb r q) returns in
  - mean tail.

(** [pct_change] and [dropna] on one column of positive numbers, and the
    prices rebuilt from the returns. *)
Fixpoint changes (prev : float) (rest : list float) : list float :=
  match rest with
  | [] => []
  | cur :: tl => (cur / prev - 1) :: changes cur tl
  end.

Definition simple_returns (prices : list float) : list float :=
  match prices with
  | [] => []
  | p0 :: rest => changes p0 rest
  end.

Fixpoint cumprod_from (acc : float) (xs : list float) : list float :=
  match xs with
  | [] => []
  | x :: tl => let acc' := acc * x in acc' :: cumprod_from acc' tl
  end.

Definition rebuild_prices (first_price : float) (rets : list float)
    : list float :=
  first_price ::
  map (fun g => first_price * g) (cumprod_from 1 (map (fun r => 1 + r) rets)).

End Float64.

(* ================================================================== *)
(** * Properties *)

(** ** to_returns: the method selector *)

(** C4: [to_returns] raises exactly when the method is neither "simple"
    nor "log"; the exception is then the invalid-method [ValueError],
    whatever the price table and the [dropna] flag are, and no table is
    returned. *)
Theorem to_returns_invalid_method :
  forall (prices : DataFrame R) (method : string) (drop : bool),
    (method <> "simple"%string /\ method <> "log"%string ->
     to_returns prices method drop = Raise invalid_method_error) /\
    (forall e, to_returns prices method drop = Raise e ->
               e = invalid_method_error /\
               method <> "simple"%string /\ method <> "log"%string).
Proof.
  intros prices method drop. unfold to_returns.
  destruct (String.eqb_spec method "simple") as [Hs | Hs].
  - split.
    + intros [H _]. contradiction.
    + intros e He. discriminate He.
  - destruct (String.eqb_spec method "log") as [Hl | Hl].
    + split.
      * intros [_ H]. contradiction.
      * intros e He. discriminate He.
    + split.
      * intros _. reflexivity.
      * intros e He. cbn in He. inversion He. auto.
Qed.

Lemma to_returns_invalid_method_witness :
  to_returns (mkDataFrame 2 [[100; 101]]) "median" true
  = Raise invalid_method_error.
Proof.
  apply (proj1 (to_returns_invalid_method
                  (mkDataFrame 2 [[100; 101]]) "median" true)).
  split; discriminate.
Defined.

(** ** to_returns on positive prices *)

Section ReturnsOfPositivePrices.

Lemma length_changes {A B : Type} (f : A -> A -> B) (rest : list A) :
  forall prev, length (changes f prev rest) = length rest.
Proof. induction rest; intros; simpl; auto. Qed.

Lemma fdiv_num (a b : R) : b <> 0 -> fdiv (Num a) (Num b) = Num (a / b).
Proof.
  intros Hb. unfold fdiv. destruct (Req_dec_T b 0); [contradiction | reflexivity].
Qed.

Lemma flog_pos (a : R) : 0 < a -> flog (Num a) = Num (ln a).
Proof.
  intros Ha. unfold flog. destruct (Rlt_dec 0 a); [reflexivity | contradiction].
Qed.

Lemma pct_change_positive (p0 : R) (rest : list R) :
  Forall (fun p => 0 < p) (p0 :: rest) ->
  pct_change (p0 :: rest) = NaN :: map Num (simple_returns p0 rest).
Proof.
  unfold pct_change, simple_returns. intros H. f_equal.
  revert p0 H. induction rest as [| x tl IH]; intros p0 H; cbn [changes map].
  - reflexivity.
  - inversion H as [| ? ? Hp0 Hrest]; subst.
    rewrite fdiv_num by lra. rewrite (IH x Hrest). reflexivity.
Qed.

Lemma log_diff_positive (p0 : R) (rest : list R) :
  Forall (fun p => 0 < p) (p0 :: rest) ->
  diff (np_log (p0 :: rest)) = NaN :: map Num (log_returns p0 rest).
Proof.
  unfold diff, np_log, log_returns. cbn [map]. intros H. f_equal.
  inversion H as [| ? ? Hp0 Hrest]; subst. clear H.
  rewrite (flog_pos p0 Hp0).
  revert p0 Hp0.
  induction Hrest as [| x tl Hx Htl IH]; intros p0 Hp0; cbn [changes map].
  - reflexivity.
  - rewrite (flog_pos x Hx). rewrite (IH x Hx). reflexivity.
Qed.

(** Rebuilding from simple returns, with the running product at [acc]
    and the scale [c] such that [c * acc] is the previous price. *)
Lemma cumprod_simple_returns (c : R) (rest : list R) :
  forall acc prev,
    0 < prev -> Forall (fun p => 0 < p) rest -> c * acc = prev ->
    map (fun g => c * g)
        (cumprod_from acc (map (fun r => 1 + r) (simple_returns prev rest)))
    = rest.
Proof.
  unfold simple_returns.
  induction rest as [| x tl IH]; intros acc prev Hprev Hrest Hacc;
    cbn [changes map cumprod_from].
  - reflexivity.
  - inversion Hrest as [| ? ? Hx Htl]; subst.
    assert (Hc : c <> 0) by (intros E; rewrite E in Hprev; lra).
    assert (Ha : acc <> 0) by (intros E; rewrite E in Hprev; lra).
    assert (Hhead : c * (acc * (1 + (x / (c * acc) - 1))) = x)
      by (field; auto).
    rewrite Hhead. f_equal.
    apply IH; assumption.
Qed.


Lemma last_cons_default {A : Type} (tl : list A) :
  forall x d, last (x :: tl) d = last tl x.
Proof.
  induction tl as [| y tl' IH]; intros x d; [reflexivity |].
  change (last (x :: y :: tl') d) with (last (y :: tl') d).
  rewrite (IH y d), (IH y x). reflexivity.
Qed.

Lemma sum_log_returns (rest : list R) :
  forall prev, sum (log_returns prev rest) = ln (last rest prev) - ln prev.
Proof.
  unfold log_returns.
  induction rest as [| x tl IH]; intros prev.
  - simpl. lra.
  - change (sum (changes (fun cur prev0 => ln cur - ln prev0) prev (x :: tl)))
      with (ln x - ln prev
            + sum (changes (fun cur prev0 => ln cur - ln prev0) x tl)).
    rewrite IH.
    rewrite last_cons_default. lra.
Qed.

Lemma nth_map_Num_not_nan (vs : list R) (i : nat) :
  (i < length vs)%nat -> is_nan (nth i (map Num vs) NaN) = false.
Proof.
  revert i. induction vs as [| v tl IH]; intros i Hi; simpl in Hi.
  - lia.
  - destruct i; simpl; [reflexivity | apply IH; lia].
Qed.

Lemma row_complete_led_by_nan (n : nat) (cols : list (Series float)) :
  Forall (led_by_nan n) cols -> cols <> [] ->
  filter (row_complete cols) (seq 0 (S n)) = seq 1 n.
Proof.
  intros Hcols Hne.
  change (seq 0 (S n)) with (0%nat :: seq 1 n).
  cbn [filter].
  assert (H0 : row_complete cols 0 = false).
  { destruct cols as [| c cs]; [contradiction |].
    inversion Hcols as [| ? ? [vs [Hc _]] _]; subst.
    reflexivity. }
  rewrite H0.
  apply forallb_filter_id.
  apply forallb_forall. intros i Hi. apply in_seq in Hi.
  unfold row_complete. apply forallb_forall. intros c Hc.
  rewrite Forall_forall in Hcols. destruct (Hcols c Hc) as [vs [-> Hlen]].
  destruct i as [| i]; [lia |]. simpl.
  rewrite nth_map_Num_not_nan by lia. reflexivity.
Qed.

Lemma take_rows_tail (x : float) (l : list float) :
  take_rows (seq 1 (length l)) (x :: l) = l.
Proof.
  unfold take_rows. rewrite <- seq_shift, map_map. simpl.
  induction l as [| y tl IH]; [reflexivity |].
  simpl. f_equal. rewrite <- seq_shift, map_map. exact IH.
Qed.

Lemma dropna_led_by_nan (n : nat) (cols : list (Series float)) :
  Forall (led_by_nan n) cols ->
  columns (dropna (mkDataFrame (S n) cols)) = map (@tl float) cols.
Proof.
  intros Hcols. unfold dropna. cbn [columns nrows].
  destruct cols as [| c cs]; [reflexivity |].
  rewrite (row_complete_led_by_nan n (c :: cs) Hcols) by discriminate.
  apply map_ext_in. intros c' Hc'.
  rewrite Forall_forall in Hcols. destruct (Hcols c' Hc') as [vs [-> Hlen]].
  cbn [tl]. rewrite <- Hlen at 1. rewrite <- (length_map Num).
  apply take_rows_tail.
Qed.

End ReturnsOfPositivePrices.

Section DropFirstRow.

(** A column transform [f] that, on positive prices, yields one NaN
    followed by the numbers [g p0 rest]. *)
Variable f : Series R -> Series float.
Variable g : R -> list R -> list R.
Hypothesis f_positive :
  forall p0 rest, Forall (fun p => 0 < p) (p0 :: rest) ->
                  f (p0 :: rest) = NaN :: map Num (g p0 rest).
Hypothesis length_g : forall p0 rest, length (g p0 rest) = length rest.

Lemma dropna_drops_first_row (prices : DataFrame R) :
  well_formed prices -> (0 < nrows prices)%nat -> positive_prices prices ->
  columns (dropna (frame_map f prices))
  = map (numbers_after_first g) (columns prices).
Proof.
  unfold well_formed, positive_prices, frame_map.
  destruct prices as [n cols]. cbn [nrows columns].
  intros Hwf Hn Hpos. destruct n as [| n]; [lia |].
  rewrite (dropna_led_by_nan n).
  - rewrite map_map. apply map_ext_in. intros c Hc.
    rewrite Forall_forall in Hwf, Hpos.
    specialize (Hwf c Hc). specialize (Hpos c Hc).
    destruct c as [| p0 rest]; [discriminate Hwf |].
    rewrite (f_positive p0 rest Hpos). reflexivity.
  - apply Forall_forall. intros fc Hfc.
    apply in_map_iff in Hfc. destruct Hfc as [c [<- Hc]].
    rewrite Forall_forall in Hwf, Hpos.
    specialize (Hwf c Hc). specialize (Hpos c Hc).
    destruct c as [| p0 rest]; [discriminate Hwf |].
    exists (g p0 rest). split.
    + apply f_positive; assumption.
    + rewrite length_g. simpl in Hwf. lia.
Qed.

End DropFirstRow.

Lemma last_in {A : Type} (l : list A) (d : A) :
  l <> [] -> In (last l d) l.
Proof.
  induction l as [| a tl IH]; intros Hne; [contradiction |].
  destruct tl as [| b tl'].
  - left. reflexivity.
  - right. apply IH. discriminate.
Qed.

Lemma Forall2_map_right {A B : Type} (P : A -> B -> Prop) (h : A -> B)
    (l : list A) :
  (forall a, In a l -> P a (h a)) -> Forall2 P l (map h l).
Proof.
  induction l as [| a tl IH]; intros H; simpl; constructor.
  - apply H. left. reflexivity.
  - apply IH. intros b Hb. apply H. right. exact Hb.
Qed.



(** C9: on a table of positive prices, [to_returns] with method "log"
    returns; in every column the returns are numbers and their sum is
    [ln (P_last / P_first)]. *)
Theorem log_returns_telescope :
  forall prices : DataFrame R,
    well_formed prices -> (0 < nrows prices)%nat -> positive_prices prices ->
    exists ret,
      to_returns prices "log" true = Ok ret /\
      Forall2 (fun price_col ret_col =>
                 exists p0 rs,
                   hd_error price_col = Some p0 /\
                   ret_col = map Num rs /\
                   sum rs = ln (last price_col p0 / p0))
              (columns prices) (columns ret).
Proof.
  intros prices Hwf Hn Hpos.
  exists (dropna (frame_map (fun c => diff (np_log c)) prices)).
  split; [reflexivity |].
  rewrite (dropna_drops_first_row (fun c => diff (np_log c)) log_returns
             log_diff_positive
             (fun p0 rest => length_changes _ rest p0) prices Hwf Hn Hpos).
  apply Forall2_map_right. intros c Hc.
  unfold well_formed, positive_prices in *. rewrite Forall_forall in Hwf, Hpos.
  specialize (Hwf c Hc). specialize (Hpos c Hc).
  destruct c as [| p0 rest]; [simpl in Hwf; lia |].
  exists p0, (log_returns p0 rest). repeat split.
  rewrite sum_log_returns, last_cons_default.
  assert (Hp0 : 0 < p0) by (inversion Hpos; assumption).
  assert (Hlast : 0 < last rest p0).
  { inversion Hpos as [| ? ? _ Hrest]; subst.
    destruct rest as [| x tl]; [exact Hp0 |].
    rewrite Forall_forall in Hrest. apply Hrest.
    apply last_in. discriminate. }
  symmetry. unfold Rdiv. rewrite ln_mult, ln_Rinv.
  - reflexivity.
  - exact Hp0.
  - exact Hlast.
  - apply Rinv_0_lt_compat. exact Hp0.
Qed.

Lemma log_returns_telescope_witness :
  exists ret,
    to_returns (mkDataFrame 3 [[100; 110; 99]]) "log" true = Ok ret /\
    Forall2 (fun price_col ret_col =>
               exists p0 rs,
                 hd_error price_col = Some p0 /\
                 ret_col = map Num rs /\
                 sum rs = ln (last price_col p0 / p0))
            [[100; 110; 99]] (columns ret).
Proof.
  apply (log_returns_telescope (mkDataFrame 3 [[100; 110; 99]])).
  - repeat constructor.
  - simpl. lia.
  - repeat constructor; lra.
Defined.

(** ** Mean and standard deviation *)

Lemma INR_length_pos {A : Type} (xs : list A) : xs <> [] -> 0 < INR (length xs).
Proof.
  intros H. destruct xs as [| x tl]; [contradiction |].
  apply lt_0_INR. simpl. lia.
Qed.

Lemma mean_nonempty (xs : list R) : xs <> [] -> mean xs = Num (spec_mean xs).
Proof. intros H. destruct xs; [contradiction | reflexivity]. Qed.

Lemma std_population (xs : list R) :
  xs <> [] -> std 0 xs = Num (population_std xs).
Proof.
  intros H. unfold std, population_std, squared_deviations, spec_mean.
  destruct xs as [| x tl]; [contradiction |].
  cbn [length Nat.leb]. rewrite Nat.sub_0_r. reflexivity.
Qed.

Lemma fsqrt_periods (p : Z) :
  (0 <= p)%Z -> fsqrt (Num (IZR p)) = Num (sqrt (IZR p)).
Proof.
  intros Hp. unfold fsqrt. apply IZR_le in Hp.
  destruct (Rlt_dec (IZR p) 0); [lra | reflexivity].
Qed.

Lemma sum_nonneg (xs : list R) : Forall (fun x => 0 <= x) xs -> 0 <= sum xs.
Proof.
  unfold sum. induction 1 as [| x tl Hx _ IH]; simpl; lra.
Qed.

Lemma squared_deviations_nonneg (xs : list R) : 0 <= squared_deviations xs.
Proof.
  unfold squared_deviations. apply sum_nonneg.
  apply Forall_forall. intros y Hy. apply in_map_iff in Hy.
  destruct Hy as [x [<- _]]. cbv beta.
  generalize (x - spec_mean xs). intros d. nra.
Qed.

(** The population estimator is strictly below the sample-corrected one
    on a series that is not constant. *)
Lemma population_std_lt_sample_std (xs : list R) :
  (2 <= length xs)%nat -> 0 < squared_deviations xs ->
  population_std xs < sample_std xs.
Proof.
  intros Hlen Hdev. unfold population_std, sample_std.
  assert (Hn : 2 <= INR (length xs)) by (apply (le_INR 2); exact Hlen).
  apply sqrt_lt_1_alt. split.
  - apply Rmult_le_pos; [lra |].
    apply Rlt_le, Rinv_0_lt_compat. lra.
  - unfold Rdiv. apply Rmult_lt_compat_l; [exact Hdev |].
    apply Rinv_lt_contravar; nra.
Qed.

(** C5: on a non-empty table, [annualize_mean_vol] returns per column the
    mean times [p] and the population standard deviation (sum of squared
    deviations over [n]) times [sqrt p]; on a column of two or more cells
    that is not constant this differs from the sample-corrected estimate
    (over [n - 1]). *)
Theorem annualize_mean_vol_population :
  forall (returns : DataFrame R) (p : Z),
    well_formed returns -> (0 < nrows returns)%nat -> (0 <= p)%Z ->
    annualize_mean_vol returns p
    = (map (fun c => Num (spec_mean c * IZR p)) (columns returns),
       map (fun c => Num (population_std c * sqrt (IZR p))) (columns returns))
    /\
    (forall c, In c (columns returns) ->
               (2 <= length c)%nat -> 0 < squared_deviations c -> (0 < p)%Z ->
               population_std c * sqrt (IZR p) < sample_std c * sqrt (IZR p)).
Proof.
  intros returns p Hwf Hn Hp. split.
  - unfold annualize_mean_vol. rewrite (fsqrt_periods p Hp).
    unfold well_formed in Hwf. rewrite Forall_forall in Hwf.
    f_equal; apply map_ext_in; intros c Hc;
      assert (Hne : c <> []) by
        (intros E; specialize (Hwf c Hc); rewrite E in Hwf; simpl in Hwf; lia).
    + rewrite (mean_nonempty c Hne). reflexivity.
    + rewrite (std_population c Hne). reflexivity.
  - intros c _ Hlen Hdev Hp'.
    apply Rmult_lt_compat_r.
    + apply sqrt_lt_R0. apply (IZR_lt 0). exact Hp'.
    + apply population_std_lt_sample_std; assumption.
Qed.

Lemma annualize_mean_vol_population_witness :
  annualize_mean_vol (mkDataFrame 2 [[0.01; 0.03]]) 252
  = (map (fun c => Num (spec_mean c * IZR 252)) [[0.01; 0.03]],
     map (fun c => Num (population_std c * sqrt (IZR 252))) [[0.01; 0.03]])
  /\
  (forall c, In c [[0.01; 0.03]] ->
             (2 <= length c)%nat -> 0 < squared_deviations c -> (0 < 252)%Z ->
             population_std c * sqrt (IZR 252) < sample_std c * sqrt (IZR 252)).
Proof.
  apply (annualize_mean_vol_population (mkDataFrame 2 [[0.01; 0.03]]) 252).
  - repeat constructor.
  - simpl. lia.
  - lia.
Defined.

(** ** sharpe_ratio *)










(** ** max_drawdown *)

Section RunningMaximum.

Lemma fold_max_init (m y : R) (l : list R) :
  fold_right Rmax (Rmax m y) l = Rmax y (fold_right Rmax m l).
Proof.
  induction l as [| a tl IH]; cbn [fold_right].
  - apply Rmax_comm.
  - rewrite IH. rewrite !Rmax_assoc. f_equal. apply Rmax_comm.
Qed.

Lemma fold_max_ge_init (m : R) (l : list R) : m <= fold_right Rmax m l.
Proof.
  induction l as [| a tl IH]; cbn [fold_right].
  - lra.
  - eapply Rle_trans; [exact IH | apply Rmax_r].
Qed.

Lemma fold_max_absorbs_init (m : R) (l : list R) :
  Rmax m (fold_right Rmax m l) = fold_right Rmax m l.
Proof. apply Rmax_right. apply fold_max_ge_init. Qed.

(** [cummax], cell by cell, is the maximum of the prefix. *)
Lemma cummax_from_prefix (tl : list R) :
  forall m,
    cummax_from m tl
    = map (fun t => fold_right Rmax m (firstn (S t) tl)) (seq 0 (length tl)).
Proof.
  induction tl as [| y tl' IH]; intros m; [reflexivity |].
  cbn [cummax_from length]. rewrite IH.
  change (seq 0 (S (length tl'))) with (0%nat :: seq 1 (length tl')).
  cbn [map]. f_equal.
  - cbn [firstn fold_right]. apply Rmax_comm.
  - rewrite <- seq_shift, map_map. apply map_ext. intros t.
    cbn [firstn fold_right]. apply fold_max_init.
Qed.

Lemma cummax_running_max (ps : list R) :
  cummax ps = map (running_max ps) (seq 0 (length ps)).
Proof.
  destruct ps as [| x tl]; [reflexivity |].
  unfold running_max. cbn [cummax length hd].
  change (seq 0 (S (length tl))) with (0%nat :: seq 1 (length tl)).
  cbn [map]. f_equal.
  - cbn [firstn fold_right]. symmetry. apply Rmax_left. lra.
  - rewrite cummax_from_prefix, <- seq_shift, map_map.
    apply map_ext. intros t.
    change (firstn (S (S t)) (x :: tl)) with (x :: firstn (S t) tl).
    cbn [fold_right]. symmetry. apply fold_max_absorbs_init.
Qed.

Lemma running_max_ge_first (x : R) (tl : list R) (t : nat) :
  x <= running_max (x :: tl) t.
Proof. unfold running_max. cbn [hd]. apply fold_max_ge_init. Qed.

(** On a non-decreasing series the running maximum is the series. *)
Lemma cummax_from_sorted (tl : list R) :
  forall m, Sorted Rle (m :: tl) -> cummax_from m tl = tl.
Proof.
  induction tl as [| y tl' IH]; intros m Hs; [reflexivity |].
  cbn [cummax_from].
  inversion Hs as [| ? ? Htl Hhd]; subst.
  inversion Hhd as [| ? ? Hmy]; subst.
  rewrite (Rmax_right m y Hmy). f_equal. apply IH. exact Htl.
Qed.

Lemma cummax_sorted (ps : list R) : Sorted Rle ps -> cummax ps = ps.
Proof.
  destruct ps as [| x tl]; [reflexivity |].
  intros Hs. cbn [cummax]. f_equal. apply cummax_from_sorted. exact Hs.
Qed.

End RunningMaximum.

Lemma map_nth_seq (ps : list R) :
  map (fun t => nth t ps 0) (seq 0 (length ps)) = ps.
Proof.
  induction ps as [| x tl IH]; [reflexivity |].
  cbn [length]. change (seq 0 (S (length tl))) with (0%nat :: seq 1 (length tl)).
  cbn [map nth]. f_equal. rewrite <- seq_shift, map_map. exact IH.
Qed.

Lemma map2_map_map {A B C D : Type} (f : B -> C -> D) (a : A -> B)
    (b : A -> C) (l : list A) :
  map2 f (map a l) (map b l) = map (fun t => f (a t) (b t)) l.
Proof. induction l as [| x tl IH]; cbn [map map2]; [| rewrite IH]; reflexivity. Qed.

(** The drawdown series of a positive price series. *)
Lemma drawdown_series (ps : list R) :
  Forall (fun p => 0 < p) ps ->
  map2 (fun p m => fsub (fdiv (Num p) (Num m)) (Num 1)) ps (cummax ps)
  = map (fun t => Num (drawdown_at ps t)) (seq 0 (length ps)).
Proof.
  intros Hpos.
  destruct ps as [| x tl]; [reflexivity |].
  rewrite cummax_running_max.
  rewrite <- (map_nth_seq (x :: tl)) at 1.
  rewrite map2_map_map. apply map_ext. intros t.
  assert (Hx : 0 < x) by (inversion Hpos; assumption).
  pose proof (running_max_ge_first x tl t) as Hge.
  rewrite fdiv_num by lra. reflexivity.
Qed.

(** [series_min] on a non-empty series of numbers is its least cell. *)
Lemma series_min_numbers (l : list R) :
  l <> [] ->
  exists m, series_min (map Num l) = Num m /\ In m l /\
            (forall x, In x l -> m <= x).
Proof.
  induction l as [| a tl IH]; intros Hne; [contradiction |].
  destruct tl as [| b tl'].
  - exists a. cbn. split; [reflexivity |]. split; [auto |].
    intros x [<- | []]. lra.
  - destruct IH as [m [Hm [Hin Hle]]]; [discriminate |].
    exists (Rmin a m). unfold series_min in *.
    cbn [map fold_right] in *. rewrite Hm. split; [reflexivity |]. split.
    + unfold Rmin. destruct (Rle_dec a m); [left; reflexivity | right; exact Hin].
    + intros x [<- | Hx].
      * apply Rmin_l.
      * eapply Rle_trans; [apply Rmin_r | apply Hle; exact Hx].
Qed.

(** C6: on a non-empty series of positive prices, [max_drawdown] is the
    least of the drawdowns [P_t / runningMax_t - 1], where [runningMax_t]
    is the maximum of [P_0 .. P_t]; it is at most 0, and it is 0 when the
    series is non-decreasing. *)
Theorem max_drawdown_spec :
  forall ps : Series R,
    ps <> [] -> Forall (fun p => 0 < p) ps ->
    exists m,
      max_drawdown ps = Num m /\
      (exists t, (t < length ps)%nat /\ m = drawdown_at ps t) /\
      (forall t, (t < length ps)%nat -> m <= drawdown_at ps t) /\
      m <= 0 /\
      (Sorted Rle ps -> m = 0).
Proof.
  intros ps Hne Hpos. unfold max_drawdown.
  assert (Hseq : map (drawdown_at ps) (seq 0 (length ps)) <> []).
  { destruct ps; [contradiction | discriminate]. }
  destruct (series_min_numbers _ Hseq) as [m [Hm [Hin Hle]]].
  assert (Hall : forall t, (t < length ps)%nat -> m <= drawdown_at ps t).
  { intros t Ht. apply Hle. apply in_map. apply in_seq. lia. }
  assert (Hex : exists t, (t < length ps)%nat /\ m = drawdown_at ps t).
  { apply in_map_iff in Hin. destruct Hin as [t [Ht Hin]].
    apply in_seq in Hin. exists t. split; [lia | auto]. }
  exists m. split; [| split; [exact Hex | split; [exact Hall | split]]].
  - rewrite (drawdown_series ps Hpos), <- Hm, map_map. reflexivity.
  - destruct ps as [| x tl]; [contradiction |].
    assert (Hx : 0 < x) by (inversion Hpos; assumption).
    specialize (Hall 0%nat ltac:(simpl; lia)).
    assert (H0 : drawdown_at (x :: tl) 0 = 0).
    { unfold drawdown_at, running_max. cbn [nth hd firstn fold_right].
      rewrite Rmax_left by lra. field. lra. }
    lra.
  - intros Hsorted. destruct Hex as [t [Ht ->]].
    pose proof (cummax_running_max ps) as Hcm.
    rewrite (cummax_sorted ps Hsorted) in Hcm.
    assert (Hrm : running_max ps t = nth t ps 0).
    { rewrite Hcm at 2.
      rewrite (nth_indep _ 0 (running_max ps 0))
        by (rewrite length_map, length_seq; exact Ht).
      rewrite map_nth, seq_nth by exact Ht. reflexivity. }
    unfold drawdown_at. rewrite Hrm.
    assert (Hp : 0 < nth t ps 0).
    { rewrite Forall_forall in Hpos. apply Hpos. apply nth_In. exact Ht. }
    field. lra.
Qed.

Lemma max_drawdown_spec_witness :
  exists m,
    max_drawdown [100; 120; 90] = Num m /\
    (exists t, (t < 3)%nat /\ m = drawdown_at [100; 120; 90] t) /\
    (forall t, (t < 3)%nat -> m <= drawdown_at [100; 120; 90] t) /\
    m <= 0 /\
    (Sorted Rle [100; 120; 90] -> m = 0).
Proof.
  apply (max_drawdown_spec [100; 120; 90]).
  - discriminate.
  - repeat constructor; lra.
Defined.

(** ** quantile and cvar *)

Section SortedValues.

Lemma in_insert_sorted (x y : R) (s : list R) :
  In y (insert_sorted x s) <-> y = x \/ In y s.
Proof.
  induction s as [| z tl IH]; cbn [insert_sorted].
  - simpl. intuition.
  - destruct (Rle_dec x z); simpl; [intuition |].
    rewrite IH. intuition.
Qed.

Lemma in_sort (y : R) (xs : list R) : In y (sort xs) <-> In y xs.
Proof.
  unfold sort. induction xs as [| x tl IH]; cbn [fold_right].
  - reflexivity.
  - rewrite in_insert_sorted, IH. simpl. intuition.
Qed.

Lemma insert_sorted_sorted (x : R) (s : list R) :
  Sorted Rle s -> Sorted Rle (insert_sorted x s).
Proof.
  induction s as [| z tl IH]; intros Hs; cbn [insert_sorted].
  - repeat constructor.
  - destruct (Rle_dec x z) as [Hxz | Hxz].
    + constructor; [exact Hs | constructor; exact Hxz].
    + inversion Hs as [| ? ? Htl Hhd]; subst.
      constructor; [apply IH; exact Htl |].
      destruct tl as [| w tl']; cbn [insert_sorted].
      * constructor. lra.
      * inversion Hhd; subst.
        destruct (Rle_dec x w); constructor; lra.
Qed.

Lemma sort_sorted (xs : list R) : Sorted Rle (sort xs).
Proof.
  unfold sort. induction xs as [| x tl IH]; cbn [fold_right].
  - constructor.
  - apply insert_sorted_sorted. exact IH.
Qed.

Lemma sorted_adjacent (s : list R) :
  Sorted Rle s ->
  forall i d d', (S i < length s)%nat -> nth i s d <= nth (S i) s d'.
Proof.
  induction 1 as [| x tl Htl IH Hhd]; intros i d d' Hi; simpl in Hi.
  - lia.
  - destruct i as [| i].
    + destruct tl as [| y tl']; simpl in Hi; [lia |].
      inversion Hhd; subst. simpl. assumption.
    + change (nth i tl d <= nth (S i) tl d'). apply IH. lia.
Qed.

End SortedValues.

Lemma sum_le_bound (v : R) (l : list R) :
  (forall x, In x l -> x <= v) -> sum l <= INR (length l) * v.
Proof.
  unfold sum. induction l as [| a tl IH]; intros H.
  - simpl. lra.
  - change (length (a :: tl)) with (S (length tl)). rewrite S_INR.
    cbn [fold_right].
    assert (a <= v) by (apply H; left; reflexivity).
    assert (fold_right Rplus 0 tl <= INR (length tl) * v)
      by (apply IH; intros x Hx; apply H; right; exact Hx).
    lra.
Qed.

(** On a non-empty series the quantile is a number, at least as large as
    some observation. *)
Lemma quantile_above_an_observation (xs : Series R) (q : R) :
  xs <> [] -> 0 <= q <= 1 ->
  exists v a, quantile xs q = Ok (Num v) /\ In a xs /\ a <= v.
Proof.
  intros Hne [Hq0 Hq1]. unfold quantile.
  destruct (Rle_dec 0 q) as [_ | Hc]; [| contradiction].
  destruct (Rle_dec q 1) as [_ | Hc]; [| contradiction].
  destruct (sort xs) as [| s0 s'] eqn:Hs.
  - exfalso. destruct xs as [| x tl]; [contradiction |].
    assert (Hin : In x (sort (x :: tl))) by (apply in_sort; left; reflexivity).
    rewrite Hs in Hin. exact Hin.
  - set (h := INR (length xs - 1) * q).
    set (lo := Z.to_nat (Int_part h)).
    set (a := nth lo (s0 :: s') s0).
    set (b := nth (S lo) (s0 :: s') a).
    exists (a + (b - a) * (h - IZR (Int_part h))), a.
    split; [reflexivity |]. split.
    + apply in_sort. rewrite Hs. subst a.
      destruct (nth_in_or_default lo (s0 :: s') s0) as [Hin | ->];
        [exact Hin | left; reflexivity].
    + assert (Hab : a <= b).
      { subst b. destruct (Nat.lt_ge_cases (S lo) (length (s0 :: s'))) as [Hlt | Hge].
        - subst a. apply sorted_adjacent; [| exact Hlt].
          rewrite <- Hs. apply sort_sorted.
        - rewrite nth_overflow by exact Hge. lra. }
      destruct (base_Int_part h) as [Hfloor _].
      assert (0 <= (b - a) * (h - IZR (Int_part h)))
        by (apply Rmult_le_pos; lra).
      lra.
Qed.




(** ** portfolio_stats *)

Lemma cvar_95_returns (xs : Series R) : exists c, cvar xs 0.95 = Ok c.
Proof.
  unfold cvar, quantile.
  destruct (Rle_dec 0 (1 - 0.95)) as [_ | Hc]; [| exfalso; lra].
  destruct (Rle_dec (1 - 0.95) 1) as [_ | Hc]; [| exfalso; lra].
  destruct (sort xs); cbn [bind]; eexists; reflexivity.
Qed.

Lemma matmul_aligned (returns : DataFrame R) (w : list R) :
  length (columns returns) = length w ->
  matmul returns w
  = Ok (map (fun i => dot (row returns i) w) (seq 0 (nrows returns))).
Proof. intros H. unfold matmul. rewrite H, Nat.eqb_refl. reflexivity. Qed.

(** The dict built by [portfolio_stats] when the weights match the
    columns. *)
Lemma portfolio_stats_aligned (w : list R) (returns : DataFrame R) (rf : R)
    (p : Z) :
  length (columns returns) = length w ->
  exists port cvar95,
    matmul returns w = Ok port /\
    cvar port 0.95 = Ok cvar95 /\
    portfolio_stats w returns rf p
    = Ok [("ann_return"%string, fmul (mean port) (Num (IZR p)));
          ("ann_vol"%string, fmul (std 0 port) (fsqrt (Num (IZR p))));
          ("sharpe"%string,
           fdiv (fsub (fmul (mean port) (Num (IZR p))) (Num rf))
                (fadd (fmul (std 0 port) (fsqrt (Num (IZR p)))) (Num 1e-12)));
          ("max_drawdown"%string,
           max_drawdown (cumprod (map (fun r => 1 + r) port)));
          ("cvar_95"%string, cvar95)].
Proof.
  intros Hlen.
  set (port := map (fun i => dot (row returns i) w) (seq 0 (nrows returns))).
  destruct (cvar_95_returns port) as [cv Hcv].
  exists port, cv. split; [apply matmul_aligned; exact Hlen |].
  split; [exact Hcv |].
  unfold portfolio_stats. rewrite (matmul_aligned returns w Hlen).
  cbn [bind]. fold port. rewrite Hcv. reflexivity.
Qed.

Lemma population_std_nonneg (xs : list R) : 0 <= population_std xs.
Proof. apply sqrt_pos. Qed.

(** The Sharpe entry on a non-empty portfolio series: the annualized
    return minus [rf] as passed, over the annualized volatility plus
    [1e-12]. *)
Lemma portfolio_stats_sharpe (w : list R) (returns : DataFrame R) (rf : R)
    (p : Z) (port : Series R) :
  matmul returns w = Ok port -> port <> [] -> (0 <= p)%Z ->
  exists d,
    portfolio_stats w returns rf p = Ok d /\
    dict_get d "sharpe"
    = Some (Num ((spec_mean port * IZR p - rf)
                 / (population_std port * sqrt (IZR p) + 1e-12))).
Proof.
  intros Hmm Hne Hp.
  assert (Hlen : length (columns returns) = length w).
  { unfold matmul in Hmm.
    destruct (Nat.eqb_spec (length (columns returns)) (length w));
      [assumption | discriminate]. }
  destruct (portfolio_stats_aligned w returns rf p Hlen)
    as [port' [cv [Hmm' [_ Hstats]]]].
  rewrite Hmm in Hmm'. inversion Hmm'; subst port'. clear Hmm'.
  eexists. split; [exact Hstats |].
  cbn [dict_get String.eqb Ascii.eqb Bool.eqb].
  rewrite (mean_nonempty port Hne), (std_population port Hne),
    (fsqrt_periods p Hp).
  cbn [fmul fsub fneg fadd]. f_equal.
  apply fdiv_num.
  pose proof (population_std_nonneg port).
  pose proof (sqrt_pos (IZR p)).
  assert (0 <= population_std port * sqrt (IZR p))
    by (apply Rmult_le_pos; assumption).
  lra.
Qed.

(** Whenever [rf] differs from [rf * p], the Sharpe entry differs from
    the quotient with the annualized rate in the numerator. *)
Lemma portfolio_stats_sharpe_not_annualized (w : list R)
    (returns : DataFrame R) (rf : R) (p : Z) (port : Series R) :
  matmul returns w = Ok port -> port <> [] -> (0 <= p)%Z ->
  rf <> rf * IZR p ->
  exists d s,
    portfolio_stats w returns rf p = Ok d /\
    dict_get d "sharpe" = Some (Num s) /\
    s <> (spec_mean port * IZR p - rf * IZR p)
         / (population_std port * sqrt (IZR p) + 1e-12).
Proof.
  intros Hmm Hne Hp Hrf.
  destruct (portfolio_stats_sharpe w returns rf p port Hmm Hne Hp)
    as [d [Hd Hs]].
  exists d. eexists. split; [exact Hd |]. split; [exact Hs |].
  pose proof (population_std_nonneg port).
  pose proof (sqrt_pos (IZR p)).
  assert (Hden : 0 < population_std port * sqrt (IZR p) + 1e-12).
  { assert (0 <= population_std port * sqrt (IZR p))
      by (apply Rmult_le_pos; assumption).
    lra. }
  intros E. unfold Rdiv in E.
  apply Rmult_eq_reg_r in E.
  - lra.
  - apply Rinv_neq_0_compat. lra.
Qed.

(** C1: with weights [1], one asset returning 0.01 then 0.03, a
    per-period risk-free rate 0.01 and 252 periods per year, the Sharpe
    entry of [portfolio_stats] is (5.04 - 0.01) / (0.01 * sqrt 252 + 1e-12):
    the rate subtracted is the rate as passed.  The quotient with the
    annualized rate 0.01 * 252 in the numerator is a different number. *)
Theorem portfolio_stats_sharpe_raw_rf :
  exists d s,
    portfolio_stats [1] (mkDataFrame 2 [[0.01; 0.03]]) 0.01 252 = Ok d /\
    dict_get d "sharpe" = Some (Num s) /\
    s = (5.04 - 0.01) / (0.01 * sqrt 252 + 1e-12) /\
    s <> (5.04 - 0.01 * 252) / (0.01 * sqrt 252 + 1e-12).
Proof.
  set (port := [0.01 * 1 + 0; 0.03 * 1 + 0]).
  assert (Hmm : matmul (mkDataFrame 2 [[0.01; 0.03]]) [1] = Ok port)
    by reflexivity.
  assert (Hne : port <> []) by discriminate.
  assert (Hmean : spec_mean port = 0.02).
  { unfold spec_mean, port, sum. cbn [fold_right length].
    replace (INR 2) with 2 by (simpl; lra). lra. }
  assert (Hstd : population_std port = 0.01).
  { unfold population_std, squared_deviations. rewrite Hmean.
    unfold port, sum. cbn [map fold_right length].
    replace (INR 2) with 2 by (simpl; lra).
    apply sqrt_lem_1; lra. }
  destruct (portfolio_stats_sharpe [1] (mkDataFrame 2 [[0.01; 0.03]])
              0.01 252 port Hmm Hne ltac:(lia)) as [d [Hd Hs]].
  rewrite Hmean, Hstd in Hs.
  exists d. eexists. split; [exact Hd |]. split; [exact Hs |].
  pose proof (sqrt_pos 252) as Hsq.
  assert (Hden : 0 < 0.01 * sqrt 252 + 1e-12) by nra.
  split.
  - f_equal. lra.
  - intros E. unfold Rdiv in E. apply Rmult_eq_reg_r in E.
    + lra.
    + apply Rinv_neq_0_compat. lra.
Qed.

(** C3: when the weights match the columns, [portfolio_stats] returns a
    dict with exactly the five entries ann_return, ann_vol, sharpe,
    max_drawdown and cvar_95; it has no cagr entry. *)
Theorem portfolio_stats_five_entries :
  forall (w : list R) (returns : DataFrame R) (rf : R) (p : Z),
    length (columns returns) = length w ->
    exists d,
      portfolio_stats w returns rf p = Ok d /\
      keys d = ["ann_return"; "ann_vol"; "sharpe"; "max_drawdown";
                "cvar_95"]%string /\
      dict_get d "cagr" = None.
Proof.
  intros w returns rf p Hlen.
  destruct (portfolio_stats_aligned w returns rf p Hlen)
    as [port [cv [_ [_ Hstats]]]].
  eexists. split; [exact Hstats |]. split; reflexivity.
Qed.

Lemma portfolio_stats_five_entries_witness :
  exists d,
    portfolio_stats [0.5; 0.5] scenario_a_returns 0 252 = Ok d /\
    keys d = ["ann_return"; "ann_vol"; "sharpe"; "max_drawdown";
              "cvar_95"]%string /\
    dict_get d "cagr" = None.
Proof.
  apply (portfolio_stats_five_entries [0.5; 0.5] scenario_a_returns 0 252).
  reflexivity.
Defined.

(** On scenario A with equal weights, the returned dict has no CAGR
    value. *)
Lemma portfolio_stats_lacks_cagr :
  ~ (exists d v,
       portfolio_stats [0.5; 0.5] scenario_a_returns 0 252 = Ok d /\
       dict_get d "cagr" = Some v).
Proof.
  intros [d [v [Hd Hv]]].
  destruct (portfolio_stats_aligned [0.5; 0.5] scenario_a_returns 0 252
              eq_refl) as [port [cv [_ [_ Hstats]]]].
  rewrite Hstats in Hd. inversion Hd; subst d. discriminate Hv.
Qed.

(** ** Worked examples *)

(** Decide the comparisons of concrete numbers met by a goal. *)
Ltac decide_reals :=
  repeat match goal with
         | |- context [Rle_dec ?a ?b] =>
             destruct (Rle_dec a b); [try (exfalso; lra) | try (exfalso; lra)]
         | |- context [Rlt_dec ?a ?b] =>
             destruct (Rlt_dec a b); [try (exfalso; lra) | try (exfalso; lra)]
         | |- context [Req_dec_T ?a ?b] =>
             destruct (Req_dec_T a b); [try (exfalso; lra) | try (exfalso; lra)]
         end.

(** Without [dropna] the first row stays missing. *)
Example to_returns_keeps_first_row :
  to_returns (mkDataFrame 3 [[100; 110; 99]]) "simple" false
  = Ok (mkDataFrame 3 [[NaN; Num (110 / 100 - 1); Num (99 / 110 - 1)]]).
Proof.
  unfold to_returns, frame_map. cbn [String.eqb Ascii.eqb Bool.eqb bind].
  cbn [columns nrows map].
  rewrite pct_change_positive by (repeat constructor; lra).
  reflexivity.
Qed.

(** With [dropna] it is removed. *)
Example to_returns_drops_first_row :
  to_returns (mkDataFrame 3 [[100; 110; 99]]) "simple" true
  = Ok (mkDataFrame 2 [[Num (110 / 100 - 1); Num (99 / 110 - 1)]]).
Proof.
  unfold to_returns, frame_map. cbn [String.eqb Ascii.eqb Bool.eqb bind].
  cbn [columns nrows map].
  rewrite pct_change_positive by (repeat constructor; lra).
  reflexivity.
Qed.

(** A zero price gives an infinite return, which [dropna] keeps. *)
Example to_returns_zero_price :
  to_returns (mkDataFrame 2 [[0; 5]]) "simple" true
  = Ok (mkDataFrame 1 [[PInf]]).
Proof.
  unfold to_returns, frame_map. cbn [String.eqb Ascii.eqb Bool.eqb bind].
  cbn [columns nrows map pct_change changes].
  assert (H : fsub (fdiv (Num 5) (Num 0)) (Num 1) = PInf).
  { unfold fdiv, scale_inf. decide_reals. reflexivity. }
  rewrite H. reflexivity.
Qed.

Example sort_three : sort [0.01; -0.02; 0.03] = [-0.02; 0.01; 0.03].
Proof.
  unfold sort. cbn [fold_right insert_sorted]. decide_reals.
  cbn [insert_sorted]. decide_reals. reflexivity.
Qed.

(** The 5% quantile of -0.02, 0.01, 0.03 interpolates a tenth of the way
    from -0.02 to 0.01. *)
Example quantile_three :
  quantile [0.01; -0.02; 0.03] 0.05 = Ok (Num (-0.017)).
Proof.
  unfold quantile. rewrite sort_three.
  destruct (Rle_dec 0 0.05); [| exfalso; lra].
  destruct (Rle_dec 0.05 1); [| exfalso; lra].
  cbn [length Nat.sub].
  assert (Hfloor : Int_part (INR 2 * 0.05) = 0%Z).
  { symmetry. apply Int_part_spec. simpl. lra. }
  rewrite Hfloor. cbn [Z.to_nat nth]. do 2 f_equal. simpl. lra.
Qed.

Example cvar_three : cvar [0.01; -0.02; 0.03] 0.95 = Ok (Num 0.02).
Proof.
  unfold cvar. replace (1 - 0.95) with 0.05 by lra.
  rewrite quantile_three. cbn [bind filter fle]. decide_reals.
  cbn [mean fneg sum fold_right length]. do 2 f_equal. simpl. lra.
Qed.

(** From the peak 120 down to 90: a drawdown of a quarter. *)
Example max_drawdown_three : max_drawdown [100; 120; 90] = Num (-0.25).
Proof.
  unfold max_drawdown.
  rewrite drawdown_series by (repeat constructor; lra).
  cbn [length seq map]. unfold drawdown_at, running_max.
  cbn [nth hd firstn fold_right].
  rewrite (Rmax_left 100 100) by lra.
  rewrite (Rmax_right 90 100) by lra.
  rewrite (Rmax_left 120 100) by lra.
  rewrite (Rmax_right 100 120) by lra.
  unfold series_min. cbn [fold_right fmin2].
  rewrite (Rmin_right (120 / 120 - 1) (90 / 120 - 1)) by lra.
  rewrite Rmin_right by lra.
  f_equal. lra.
Qed.

(** A constant series has population standard deviation zero. *)
Lemma sum_repeat (c : R) (n : nat) : sum (repeat c n) = INR n * c.
Proof.
  unfold sum. induction n as [| n IH].
  - simpl. lra.
  - rewrite S_INR. cbn [repeat fold_right]. rewrite IH. lra.
Qed.

Lemma population_std_constant (c : R) (n : nat) :
  population_std (repeat c (S n)) = 0.
Proof.
  assert (Hn : 0 < INR (S n)) by (apply lt_0_INR; lia).
  assert (Hmean : spec_mean (repeat c (S n)) = c).
  { unfold spec_mean. rewrite sum_repeat, repeat_length. field. lra. }
  unfold population_std, squared_deviations. rewrite Hmean.
  assert (Hdev : map (fun x => (x - c) * (x - c)) (repeat c (S n))
                 = repeat 0 (S n)).
  { generalize (S n). intros k. induction k as [| k IH]; [reflexivity |].
    cbn [repeat map]. rewrite IH. f_equal. ring. }
  rewrite Hdev, sum_repeat, repeat_length.
  replace (INR (S n) * 0 / INR (S n)) with 0 by (field; lra).
  apply sqrt_0.
Qed.

(* ================================================================== *)
(** * Further properties *)

(** ** to_returns: shape and missing cells *)

Lemma length_pct_change (c : Series R) : length (pct_change c) = length c.
Proof.
  destruct c as [| p0 rest]; [reflexivity |].
  unfold pct_change. cbn [length]. rewrite length_changes. reflexivity.
Qed.

Lemma length_diff_log (c : Series R) : length (diff (np_log c)) = length c.
Proof.
  destruct c as [| p0 rest]; [reflexivity |].
  unfold diff, np_log. cbn [map length].
  rewrite length_changes, length_map. reflexivity.
Qed.

Lemma frame_map_well_formed {A B : Type} (f : Series A -> Series B)
    (df : DataFrame A) :
  (forall c, length (f c) = length c) ->
  well_formed df -> well_formed (frame_map f df).
Proof.
  intros Hf Hwf. unfold well_formed, frame_map in *. cbn [columns nrows].
  apply Forall_forall. intros fc Hfc. apply in_map_iff in Hfc.
  destruct Hfc as [c [<- Hc]]. rewrite Hf.
  rewrite Forall_forall in Hwf. apply Hwf. exact Hc.
Qed.

Lemma dropna_well_formed (df : DataFrame float) : well_formed (dropna df).
Proof.
  unfold well_formed, dropna. cbn [columns nrows].
  apply Forall_forall. intros c Hc. apply in_map_iff in Hc.
  destruct Hc as [c0 [<- _]]. unfold take_rows. apply length_map.
Qed.

Lemma dropna_complete (df : DataFrame float) (c : Series float) (x : float) :
  In c (columns (dropna df)) -> In x c -> is_nan x = false.
Proof.
  unfold dropna. cbn [columns]. intros Hc Hx.
  apply in_map_iff in Hc. destruct Hc as [c0 [<- Hc0]].
  unfold take_rows in Hx. apply in_map_iff in Hx.
  destruct Hx as [i [<- Hi]]. apply filter_In in Hi. destruct Hi as [_ Hi].
  unfold row_complete in Hi. rewrite forallb_forall in Hi.
  specialize (Hi c0 Hc0). apply negb_true_iff in Hi. exact Hi.
Qed.

(** The frame [to_returns] builds before [dropna]. *)
Lemma to_returns_cases (prices : DataFrame R) (method : string) (drop : bool)
    (ret : DataFrame float) :
  to_returns prices method drop = Ok ret ->
  exists f,
    (f = pct_change \/ f = (fun c => diff (np_log c))) /\
    ret = (if drop then dropna (frame_map f prices) else frame_map f prices).
Proof.
  unfold to_returns.
  destruct (String.eqb method "simple").
  - cbn [bind]. intros H. inversion H. exists pct_change. auto.
  - destruct (String.eqb method "log"); cbn [bind]; intros H; inversion H.
    exists (fun c => diff (np_log c)). auto.
Qed.

(** X1: whatever the method and the [dropna] flag, the table returned
    for a well-formed price table is well-formed: every column has as
    many cells as the table has rows. *)
Theorem to_returns_well_formed :
  forall (prices : DataFrame R) (method : string) (drop : bool)
         (ret : DataFrame float),
    well_formed prices ->
    to_returns prices method drop = Ok ret ->
    well_formed ret.
Proof.
  intros prices method drop ret Hwf Hret.
  destruct (to_returns_cases prices method drop ret Hret) as [f [Hf ->]].
  destruct drop; [apply dropna_well_formed |].
  apply frame_map_well_formed; [| exact Hwf].
  destruct Hf as [-> | ->]; [apply length_pct_change | apply length_diff_log].
Qed.

Lemma to_returns_well_formed_witness :
  well_formed (mkDataFrame 2 [[Num (110 / 100 - 1); Num (99 / 110 - 1)]]).
Proof.
  apply (to_returns_well_formed
           (mkDataFrame 3 [[100; 110; 99]]) "simple" true).
  - repeat constructor.
  - apply to_returns_drops_first_row.
Defined.

(** X2: with [dropna], no cell of the returned table is NaN, for every
    price table and method. *)
Theorem to_returns_dropna_no_nan :
  forall (prices : DataFrame R) (method : string) (ret : DataFrame float),
    to_returns prices method true = Ok ret ->
    Forall (Forall (fun x => is_nan x = false)) (columns ret).
Proof.
  intros prices method ret Hret.
  destruct (to_returns_cases prices method true ret Hret) as [f [_ ->]].
  apply Forall_forall. intros c Hc. apply Forall_forall. intros x Hx.
  exact (dropna_complete _ c x Hc Hx).
Qed.

Lemma to_returns_dropna_no_nan_witness :
  Forall (Forall (fun x => is_nan x = false))
         (columns (mkDataFrame 1 [[PInf]])).
Proof.
  apply (to_returns_dropna_no_nan (mkDataFrame 2 [[0; 5]]) "simple").
  apply to_returns_zero_price.
Defined.

(** X3: without [dropna] the returned table has the rows and columns of
    the price table, and every non-empty column starts with a NaN. *)
Theorem to_returns_keeps_shape :
  forall (prices : DataFrame R) (method : string) (ret : DataFrame float),
    to_returns prices method false = Ok ret ->
    nrows ret = nrows prices /\
    Forall2 (fun price_col ret_col =>
               length ret_col = length price_col /\
               (price_col <> [] -> hd_error ret_col = Some NaN))
            (columns prices) (columns ret).
Proof.
  intros prices method ret Hret.
  destruct (to_returns_cases prices method false ret Hret) as [f [Hf ->]].
  split; [reflexivity |].
  unfold frame_map. cbn [columns]. apply Forall2_map_right. intros c _.
  destruct Hf as [-> | ->].
  - split; [apply length_pct_change |].
    destruct c; [contradiction | reflexivity].
  - split; [apply length_diff_log |].
    destruct c; [contradiction | reflexivity].
Qed.

Lemma to_returns_keeps_shape_witness :
  nrows (mkDataFrame 3 [[NaN; Num (110 / 100 - 1); Num (99 / 110 - 1)]])
  = 3%nat /\
  Forall2 (fun price_col ret_col =>
             length ret_col = length price_col /\
             (price_col <> [] -> hd_error ret_col = Some NaN))
          [[100; 110; 99]]
          [[NaN; Num (110 / 100 - 1); Num (99 / 110 - 1)]].
Proof.
  apply (to_returns_keeps_shape (mkDataFrame 3 [[100; 110; 99]]) "simple").
  apply to_returns_keeps_first_row.
Defined.

(** ** to_returns on positive prices: rows, bounds, simple against log *)

Section FirstRowCount.

Variable f : Series R -> Series float.
Variable g : R -> list R -> list R.
Hypothesis f_positive :
  forall p0 rest, Forall (fun p => 0 < p) (p0 :: rest) ->
                  f (p0 :: rest) = NaN :: map Num (g p0 rest).
Hypothesis length_g : forall p0 rest, length (g p0 rest) = length rest.

Lemma dropna_row_count (prices : DataFrame R) :
  well_formed prices -> (0 < nrows prices)%nat -> positive_prices prices ->
  columns prices <> [] ->
  nrows (dropna (frame_map f prices)) = (nrows prices - 1)%nat.
Proof.
  unfold well_formed, positive_prices, frame_map.
  destruct prices as [n cols]. cbn [nrows columns].
  intros Hwf Hn Hpos Hne. destruct n as [| n]; [lia |].
  unfold dropna. cbn [nrows columns].
  rewrite (row_complete_led_by_nan n).
  - rewrite length_seq. lia.
  - apply Forall_forall. intros fc Hfc.
    apply in_map_iff in Hfc. destruct Hfc as [c [<- Hc]].
    rewrite Forall_forall in Hwf, Hpos.
    specialize (Hwf c Hc). specialize (Hpos c Hc).
    destruct c as [| p0 rest]; [discriminate Hwf |].
    exists (g p0 rest). split.
    + apply f_positive; assumption.
    + rewrite length_g. simpl in Hwf. lia.
  - destruct cols; [contradiction | discriminate].
Qed.

End FirstRowCount.

(** X4: on a well-formed table of positive prices with at least one
    column and one row, [to_returns] with [dropna] returns, for either
    method, a table with one row less and as many columns. *)
Theorem to_returns_one_row_less :
  forall (prices : DataFrame R) (method : string),
    well_formed prices -> (0 < nrows prices)%nat -> positive_prices prices ->
    columns prices <> [] ->
    method = "simple"%string \/ method = "log"%string ->
    exists ret,
      to_returns prices method true = Ok ret /\
      nrows ret = (nrows prices - 1)%nat /\
      length (columns ret) = length (columns prices).
Proof.
  intros prices method Hwf Hn Hpos Hne [-> | ->].
  - exists (dropna (frame_map pct_change prices)).
    split; [reflexivity |]. split.
    + apply (dropna_row_count pct_change simple_returns pct_change_positive
               (fun p0 rest => length_changes _ rest p0)); assumption.
    + unfold dropna, frame_map. cbn [columns]. rewrite !length_map. reflexivity.
  - exists (dropna (frame_map (fun c => diff (np_log c)) prices)).
    split; [reflexivity |]. split.
    + apply (dropna_row_count (fun c => diff (np_log c)) log_returns
               log_diff_positive
               (fun p0 rest => length_changes _ rest p0)); assumption.
    + unfold dropna, frame_map. cbn [columns]. rewrite !length_map. reflexivity.
Qed.

Lemma to_returns_one_row_less_witness :
  exists ret,
    to_returns (mkDataFrame 3 [[100; 110; 99]; [50; 49; 51]]) "log" true
    = Ok ret /\
    nrows ret = 2%nat /\
    length (columns ret) = 2%nat.
Proof.
  apply (to_returns_one_row_less
           (mkDataFrame 3 [[100; 110; 99]; [50; 49; 51]]) "log").
  - repeat constructor.
  - simpl. lia.
  - repeat constructor; lra.
  - discriminate.
  - right. reflexivity.
Defined.

Lemma simple_returns_above_minus_one (rest : list R) :
  forall p0, Forall (fun p => 0 < p) (p0 :: rest) ->
             Forall (fun r => -1 < r) (simple_returns p0 rest).
Proof.
  unfold simple_returns.
  induction rest as [| x tl IH]; intros p0 H; cbn [changes]; constructor.
  - inversion H as [| ? ? Hp0 Hrest]; subst. inversion Hrest; subst.
    assert (0 < x / p0) by (apply Rdiv_lt_0_compat; assumption). lra.
  - apply IH. inversion H; assumption.
Qed.

Lemma log_returns_ln_simple (rest : list R) :
  forall p0, Forall (fun p => 0 < p) (p0 :: rest) ->
             log_returns p0 rest
             = map (fun r => ln (1 + r)) (simple_returns p0 rest).
Proof.
  unfold log_returns, simple_returns.
  induction rest as [| x tl IH]; intros p0 H; cbn [changes map].
  - reflexivity.
  - inversion H as [| ? ? Hp0 Hrest]; subst.
    assert (Hx : 0 < x) by (inversion Hrest; assumption).
    rewrite (IH x Hrest). f_equal.
    replace (1 + (x / p0 - 1)) with (x * / p0) by (unfold Rdiv; ring).
    rewrite ln_mult, ln_Rinv; auto using Rinv_0_lt_compat.
Qed.

Lemma Forall2_map_both {A B C : Type} (P : B -> C -> Prop) (h : A -> B)
    (k : A -> C) (l : list A) :
  (forall a, In a l -> P (h a) (k a)) -> Forall2 P (map h l) (map k l).
Proof.
  induction l as [| a tl IH]; intros H; cbn [map]; constructor.
  - apply H. left. reflexivity.
  - apply IH. intros b Hb. apply H. right. exact Hb.
Qed.

(** X5: on a well-formed table of positive prices, every simple return is
    at least -1 and is not NaN. *)
Theorem simple_returns_at_least_minus_one :
  forall prices : DataFrame R,
    well_formed prices -> (0 < nrows prices)%nat -> positive_prices prices ->
    exists ret,
      to_returns prices "simple" true = Ok ret /\
      Forall (Forall (fun x => fle (Num (-1)) x = true)) (columns ret).
Proof.
  intros prices Hwf Hn Hpos.
  exists (dropna (frame_map pct_change prices)). split; [reflexivity |].
  rewrite (dropna_drops_first_row pct_change simple_returns
             pct_change_positive
             (fun p0 rest => length_changes _ rest p0) prices Hwf Hn Hpos).
  apply Forall_forall. intros rc Hrc. apply in_map_iff in Hrc.
  destruct Hrc as [c [<- Hc]].
  unfold positive_prices in Hpos. rewrite Forall_forall in Hpos.
  specialize (Hpos c Hc).
  destruct c as [| p0 rest]; [constructor |].
  cbn [numbers_after_first].
  pose proof (simple_returns_above_minus_one rest p0 Hpos) as Hb.
  apply Forall_forall. intros x Hx. apply in_map_iff in Hx.
  destruct Hx as [r [<- Hr]].
  rewrite Forall_forall in Hb. specialize (Hb r Hr).
  cbn [fle]. destruct (Rle_dec (-1) r); [reflexivity | exfalso; lra].
Qed.

Lemma simple_returns_at_least_minus_one_witness :
  exists ret,
    to_returns (mkDataFrame 3 [[100; 110; 1]]) "simple" true = Ok ret /\
    Forall (Forall (fun x => fle (Num (-1)) x = true)) (columns ret).
Proof.
  apply (simple_returns_at_least_minus_one (mkDataFrame 3 [[100; 110; 1]])).
  - repeat constructor.
  - simpl. lia.
  - repeat constructor; lra.
Defined.

(** X6: on a well-formed table of positive prices, the log return of each
    cell is [ln (1 + r)] for the simple return [r] of the same cell. *)
Theorem log_return_is_ln_of_simple :
  forall prices : DataFrame R,
    well_formed prices -> (0 < nrows prices)%nat -> positive_prices prices ->
    exists simple_ret log_ret,
      to_returns prices "simple" true = Ok simple_ret /\
      to_returns prices "log" true = Ok log_ret /\
      Forall2 (fun simple_col log_col =>
                 exists rs, simple_col = map Num rs /\
                            log_col = map (fun r => Num (ln (1 + r))) rs)
              (columns simple_ret) (columns log_ret).
Proof.
  intros prices Hwf Hn Hpos.
  exists (dropna (frame_map pct_change prices)),
         (dropna (frame_map (fun c => diff (np_log c)) prices)).
  split; [reflexivity |]. split; [reflexivity |].
  rewrite (dropna_drops_first_row pct_change simple_returns
             pct_change_positive
             (fun p0 rest => length_changes _ rest p0) prices Hwf Hn Hpos).
  rewrite (dropna_drops_first_row (fun c => diff (np_log c)) log_returns
             log_diff_positive
             (fun p0 rest => length_changes _ rest p0) prices Hwf Hn Hpos).
  apply Forall2_map_both. intros c Hc.
  unfold positive_prices in Hpos. rewrite Forall_forall in Hpos.
  specialize (Hpos c Hc).
  destruct c as [| p0 rest]; cbn [numbers_after_first].
  - exists []. split; reflexivity.
  - exists (simple_returns p0 rest). split; [reflexivity |].
    rewrite (log_returns_ln_simple rest p0 Hpos), map_map. reflexivity.
Qed.

Lemma log_return_is_ln_of_simple_witness :
  exists simple_ret log_ret,
    to_returns (mkDataFrame 3 [[100; 110; 99]]) "simple" true
    = Ok simple_ret /\
    to_returns (mkDataFrame 3 [[100; 110; 99]]) "log" true = Ok log_ret /\
    Forall2 (fun simple_col log_col =>
               exists rs, simple_col = map Num rs /\
                          log_col = map (fun r => Num (ln (1 + r))) rs)
            (columns simple_ret) (columns log_ret).
Proof.
  apply (log_return_is_ln_of_simple (mkDataFrame 3 [[100; 110; 99]])).
  - repeat constructor.
  - simpl. lia.
  - repeat constructor; lra.
Defined.

(** ** sharpe_ratio: the two branches, and the closed form *)

(** X7: on a table, [sharpe_ratio] gives for each column the value it
    gives for that column passed alone as a series. *)
Theorem sharpe_ratio_frame_per_column :
  forall (df : DataFrame R) (rf : R) (p : Z),
    exists xs,
      sharpe_ratio (OfFrame df) rf p = SharpePerColumn xs /\
      Forall2 (fun c x => sharpe_ratio (OfSeries c) rf p = OneSharpe x)
              (columns df) xs.
Proof.
  intros df rf p.
  exists (map (fun c => fdiv (sharpe_ratio_num c rf p)
                             (sharpe_ratio_den c rf p)) (columns df)).
  split.
  - cbn [sharpe_ratio]. unfold annualize_mean_vol, frame_map.
    cbn [columns]. rewrite map2_map_map, map_map. reflexivity.
  - apply Forall2_map_right. intros c _. reflexivity.
Qed.



(** ** cagr_from_prices *)

Lemma ns_per_day_pos : (0 < ns_per_day)%Z.
Proof. reflexivity. Qed.

Lemma cagr_from_prices_cons (first : Z * R) (rest : list (Z * R)) :
  let prices := first :: rest in
  let final := last prices first in
  let days := timedelta_days (fst final) (fst first) in
  cagr_from_prices prices
  = if (days =? 0)%Z then inl ZeroDivisionError
    else inr (fsub (fpow_frac (fdiv (Num (snd final)) (Num (snd first)))
                              (1 / (IZR days / 365.25)))
                   (Num 1)).
Proof. reflexivity. Qed.

(** X9: [cagr_from_prices] raises [IndexError] exactly on the empty
    series, and [ZeroDivisionError] exactly when the series is not empty
    and its last timestamp is less than one day after the first (as for a
    single observation). *)
Theorem cagr_from_prices_errors :
  forall prices : DatedSeries,
    (cagr_from_prices prices = inl IndexError <-> prices = []) /\
    (cagr_from_prices prices = inl ZeroDivisionError <->
     exists first rest,
       prices = first :: rest /\
       (0 <= fst (last prices first) - fst first < ns_per_day)%Z).
Proof.
  intros prices. destruct prices as [| first rest].
  - split.
    + split; reflexivity.
    + split; [discriminate |]. intros [f [r [H _]]]. discriminate H.
  - rewrite (cagr_from_prices_cons first rest). cbv zeta.
    set (d := timedelta_days (fst (last (first :: rest) first)) (fst first)).
    assert (Hzero : (d = 0 <-> 0 <= fst (last (first :: rest) first) - fst first
                               < ns_per_day)%Z).
    { unfold d, timedelta_days. pose proof ns_per_day_pos.
      rewrite Z.div_small_iff by lia. lia. }
    destruct (Z.eqb_spec d 0) as [Hd | Hd].
    + split.
      * split; discriminate.
      * split; [| reflexivity]. intros _. exists first, rest.
        split; [reflexivity | apply Hzero; exact Hd].
    + split.
      * split; discriminate.
      * split; [discriminate |]. intros [f [r [Heq Hspan]]].
        inversion Heq; subst f r. exfalso. apply Hd. apply Hzero. exact Hspan.
Qed.

Lemma Rpower_one_base (e : R) : Rpower 1 e = 1.
Proof. unfold Rpower. rewrite ln_1, Rmult_0_r. apply exp_0. Qed.

(** The value on positive first and last prices. *)
Lemma cagr_positive_prices (first : Z * R) (rest : list (Z * R)) :
  let prices := first :: rest in
  let final := last prices first in
  0 < snd first -> 0 < snd final ->
  timedelta_days (fst final) (fst first) <> 0%Z ->
  cagr_from_prices prices
  = inr (Num (Rpower (snd final / snd first) (1 / elapsed_years prices) - 1)).
Proof.
  intros prices final Hfirst Hfinal Hdays.
  subst prices final. rewrite (cagr_from_prices_cons first rest).
  unfold elapsed_years. cbv zeta.
  destruct (Z.eqb_spec
              (timedelta_days (fst (last (first :: rest) first)) (fst first)) 0);
    [contradiction |].
  rewrite fdiv_num by lra.
  pose proof (Rdiv_lt_0_compat _ _ Hfinal Hfirst) as Hg.
  unfold fpow_frac.
  destruct (Rlt_dec 0 (snd (last (first :: rest) first) / snd first));
    [reflexivity | contradiction].
Qed.

Lemma elapsed_years_nonzero (first : Z * R) (rest : list (Z * R)) :
  timedelta_days (fst (last (first :: rest) first)) (fst first) <> 0%Z ->
  elapsed_years (first :: rest) <> 0.
Proof.
  intros Hdays. unfold elapsed_years.
  assert (IZR (timedelta_days (fst (last (first :: rest) first))
                 (fst first)) <> 0) by (apply not_0_IZR; exact Hdays).
  intros E. apply H.
  apply (Rmult_eq_reg_r (/ 365.25)); [| apply Rinv_neq_0_compat; lra].
  unfold Rdiv in E. rewrite E. ring.
Qed.

(** X10: in exact real arithmetic, on a series whose first and last
    prices are positive and whose timestamps are at least a day apart
    (their difference fitting a [Timedelta]), [cagr_from_prices] returns
    a number above -1, and compounding it over the elapsed years gives
    back the total growth: [(1 + cagr) ^ years = P_last / P_first]. *)
Theorem cagr_compounds_to_total_growth :
  forall (first : Z * R) (rest : list (Z * R)),
    let prices := first :: rest in
    let final := last prices first in
    0 < snd first -> 0 < snd final ->
    timedelta_in_range (fst final) (fst first) ->
    timedelta_days (fst final) (fst first) <> 0%Z ->
    exists c,
      cagr_from_prices prices = inr (Num c) /\
      -1 < c /\
      Rpower (1 + c) (elapsed_years prices) = snd final / snd first.
Proof.
  intros first rest prices final Hfirst Hfinal _ Hdays.
  exists (Rpower (snd final / snd first) (1 / elapsed_years prices) - 1).
  split; [apply cagr_positive_prices; assumption |].
  assert (Hg : 0 < snd final / snd first)
    by (apply Rdiv_lt_0_compat; assumption).
  split.
  - assert (0 < Rpower (snd final / snd first) (1 / elapsed_years prices))
      by (unfold Rpower; apply exp_pos).
    lra.
  - replace (1 + (Rpower (snd final / snd first) (1 / elapsed_years prices) - 1))
      with (Rpower (snd final / snd first) (1 / elapsed_years prices)) by ring.
    rewrite Rpower_mult.
    replace (1 / elapsed_years prices * elapsed_years prices) with 1
      by (field; apply elapsed_years_nonzero; exact Hdays).
    apply Rpower_1. exact Hg.
Qed.

Lemma cagr_compounds_to_total_growth_witness :
  exists c,
    cagr_from_prices [(0%Z, 100); (31622400000000000%Z, 121)]
    = inr (Num c) /\
    -1 < c /\
    Rpower (1 + c)
           (elapsed_years [(0%Z, 100); (31622400000000000%Z, 121)])
    = 121 / 100.
Proof.
  apply (cagr_compounds_to_total_growth (0%Z, 100)
           [(31622400000000000%Z, 121)]).
  - simpl. lra.
  - simpl. lra.
  - unfold timedelta_in_range. simpl. lia.
  - vm_compute. discriminate.
Defined.

(** X11: on a series whose first and last prices are positive and whose
    last timestamp is a day or more after the first (their difference
    fitting a [Timedelta]), [cagr_from_prices] returns a value that is at
    least 0 when the last price is not below the first, and at most 0
    when it is not above. *)
Theorem cagr_sign_follows_prices :
  forall (first : Z * R) (rest : list (Z * R)),
    let prices := first :: rest in
    let final := last prices first in
    0 < snd first -> 0 < snd final ->
    timedelta_in_range (fst final) (fst first) ->
    (0 < timedelta_days (fst final) (fst first))%Z ->
    exists x,
      cagr_from_prices prices = inr x /\
      (snd first <= snd final -> fle (Num 0) x = true) /\
      (snd final <= snd first -> fle x (Num 0) = true).
Proof.
  intros first rest prices final Hfirst Hfinal _ Hdays.
  exists (Num (Rpower (snd final / snd first) (1 / elapsed_years prices) - 1)).
  split; [apply cagr_positive_prices; try assumption;
          apply not_eq_sym, Z.lt_neq; exact Hdays |].
  assert (Hyears : 0 < elapsed_years prices).
  { unfold prices, elapsed_years. apply Rdiv_lt_0_compat; [| lra].
    apply (IZR_lt 0). exact Hdays. }
  assert (He : 0 <= 1 / elapsed_years prices)
    by (apply Rlt_le, Rdiv_lt_0_compat; lra).
  assert (Hg : 0 < snd final / snd first)
    by (apply Rdiv_lt_0_compat; assumption).
  split.
  - intros Hle.
    assert (1 <= snd final / snd first).
    { apply (Rmult_le_reg_r (snd first)); [exact Hfirst |].
      unfold Rdiv. rewrite Rmult_assoc, Rinv_l by lra. lra. }
    assert (Hb : 0 < 1 <= snd final / snd first) by (split; [lra | assumption]).
    pose proof (Rle_Rpower_l _ _ _ He Hb) as Hp.
    rewrite Rpower_one_base in Hp.
    cbn [fle]. destruct (Rle_dec 0 _); [reflexivity | exfalso; lra].
  - intros Hle.
    assert (snd final / snd first <= 1).
    { apply (Rmult_le_reg_r (snd first)); [exact Hfirst |].
      unfold Rdiv. rewrite Rmult_assoc, Rinv_l by lra. lra. }
    assert (Hb : 0 < snd final / snd first <= 1) by (split; assumption).
    pose proof (Rle_Rpower_l _ _ _ He Hb) as Hp.
    rewrite Rpower_one_base in Hp.
    cbn [fle]. destruct (Rle_dec _ 0); [reflexivity | exfalso; lra].
Qed.

Lemma cagr_sign_follows_prices_witness :
  exists x,
    cagr_from_prices [(0%Z, 100); (31622400000000000%Z, 121)] = inr x /\
    (100 <= 121 -> fle (Num 0) x = true) /\
    (121 <= 100 -> fle x (Num 0) = true).
Proof.
  apply (cagr_sign_follows_prices (0%Z, 100) [(31622400000000000%Z, 121)]).
  - simpl. lra.
  - simpl. lra.
  - unfold timedelta_in_range. simpl. lia.
  - vm_compute. reflexivity.
Defined.

(** ** max_drawdown: range, scaling, and when it is zero *)

Lemma fold_max_ge_in (d x : R) (l : list R) :
  In x l -> x <= fold_right Rmax d l.
Proof.
  induction l as [| a tl IH]; intros Hin; [contradiction |].
  cbn [fold_right]. destruct Hin as [-> | Hin].
  - apply Rmax_l.
  - eapply Rle_trans; [apply IH; exact Hin | apply Rmax_r].
Qed.

Lemma running_max_ge_nth (ps : list R) (t : nat) :
  (t < length ps)%nat -> nth t ps 0 <= running_max ps t.
Proof.
  intros Ht. unfold running_max. apply fold_max_ge_in.
  replace (nth t ps 0) with (nth t (firstn (S t) ps) 0).
  - apply nth_In. rewrite length_firstn. lia.
  - rewrite nth_firstn.
    destruct (Nat.ltb_spec t (S t)); [reflexivity | lia].
Qed.

Lemma running_max_positive (ps : list R) (t : nat) :
  Forall (fun p => 0 < p) ps -> ps <> [] -> 0 < running_max ps t.
Proof.
  intros Hpos Hne. destruct ps as [| x tl]; [contradiction |].
  pose proof (running_max_ge_first x tl t).
  inversion Hpos; subst. lra.
Qed.

(** The least drawdown of a non-empty positive series, with its
    position. *)
Lemma max_drawdown_least (ps : Series R) :
  ps <> [] -> Forall (fun p => 0 < p) ps ->
  exists m t,
    max_drawdown ps = Num m /\ (t < length ps)%nat /\
    m = drawdown_at ps t /\
    (forall u, (u < length ps)%nat -> m <= drawdown_at ps u).
Proof.
  intros Hne Hpos. unfold max_drawdown.
  assert (Hseq : map (drawdown_at ps) (seq 0 (length ps)) <> []).
  { destruct ps; [contradiction | discriminate]. }
  destruct (series_min_numbers _ Hseq) as [m [Hm [Hin Hle]]].
  apply in_map_iff in Hin. destruct Hin as [t [Ht Hin]].
  apply in_seq in Hin.
  exists m, t. split; [| split; [lia | split; [auto |]]].
  - rewrite (drawdown_series ps Hpos), <- Hm, map_map. reflexivity.
  - intros u Hu. apply Hle. apply in_map. apply in_seq. lia.
Qed.

(** X12: on a non-empty series of positive prices, [max_drawdown] is a
    number, not NaN, and never below -1. *)
Theorem max_drawdown_at_least_minus_one :
  forall ps : Series R,
    ps <> [] -> Forall (fun p => 0 < p) ps ->
    exists m, max_drawdown ps = Num m /\ -1 <= m.
Proof.
  intros ps Hne Hpos.
  destruct (max_drawdown_least ps Hne Hpos) as [m [t [Hm [Ht [-> _]]]]].
  eexists. split; [exact Hm |].
  unfold drawdown_at.
  assert (Hp : 0 < nth t ps 0).
  { rewrite Forall_forall in Hpos. apply Hpos. apply nth_In. exact Ht. }
  pose proof (running_max_positive ps t Hpos Hne) as Hr.
  assert (0 < nth t ps 0 / running_max ps t)
    by (apply Rdiv_lt_0_compat; assumption).
  lra.
Qed.

Lemma max_drawdown_at_least_minus_one_witness :
  exists m, max_drawdown [100; 120; 1] = Num m /\ -1 <= m.
Proof.
  apply (max_drawdown_at_least_minus_one [100; 120; 1]).
  - discriminate.
  - repeat constructor; lra.
Defined.

Lemma cummax_from_fixed_sorted (tl : list R) :
  forall m, cummax_from m tl = tl -> Sorted Rle (m :: tl).
Proof.
  induction tl as [| y tl' IH]; intros m H.
  - repeat constructor.
  - cbn [cummax_from] in H. injection H as Hy Htl.
    rewrite Hy in Htl.
    assert (Hmy : m <= y) by (rewrite <- Hy; apply Rmax_l).
    constructor; [apply IH; exact Htl | constructor; exact Hmy].
Qed.

(** X13: on a non-empty series of positive prices, a [max_drawdown] of
    zero means the series is non-decreasing. *)
Theorem max_drawdown_zero_sorted :
  forall ps : Series R,
    ps <> [] -> Forall (fun p => 0 < p) ps ->
    max_drawdown ps = Num 0 ->
    Sorted Rle ps.
Proof.
  intros ps Hne Hpos Hzero.
  destruct (max_drawdown_least ps Hne Hpos) as [m [t [Hm [_ [_ Hle]]]]].
  rewrite Hzero in Hm. inversion Hm; subst m.
  assert (Hfix : cummax ps = ps).
  { rewrite cummax_running_max. rewrite <- (map_nth_seq ps) at 3.
    apply map_ext_in. intros u Hu. apply in_seq in Hu.
    pose proof (running_max_ge_nth ps u ltac:(lia)) as Hge.
    pose proof (running_max_positive ps u Hpos Hne) as Hr.
    specialize (Hle u ltac:(lia)). unfold drawdown_at in Hle.
    assert (running_max ps u <= nth u ps 0).
    { apply (Rmult_le_reg_r (/ running_max ps u)).
      - apply Rinv_0_lt_compat. exact Hr.
      - rewrite Rinv_r by lra. unfold Rdiv in Hle. lra. }
    lra. }
  destruct ps as [| x tl]; [constructor |].
  cbn [cummax] in Hfix. injection Hfix as Htl.
  apply cummax_from_fixed_sorted. exact Htl.
Qed.

Lemma max_drawdown_zero_sorted_witness : Sorted Rle [100; 120].
Proof.
  apply (max_drawdown_zero_sorted [100; 120]).
  - discriminate.
  - repeat constructor; lra.
  - unfold max_drawdown.
    rewrite drawdown_series by (repeat constructor; lra).
    cbn [length seq map]. unfold drawdown_at, running_max.
    cbn [nth hd firstn fold_right].
    rewrite (Rmax_left 100 100) by lra.
    rewrite (Rmax_left 120 100) by lra.
    rewrite (Rmax_right 100 120) by lra.
    unfold series_min. cbn [fold_right fmin2].
    rewrite Rmin_left by lra. f_equal. lra.
Defined.

Lemma scale_inf_scaled (c a : R) (inf : float) :
  0 < c -> scale_inf (c * a) inf = scale_inf a inf.
Proof.
  intros Hc. unfold scale_inf.
  destruct (Req_dec_T (c * a) 0) as [Hz | Hz];
    destruct (Req_dec_T a 0) as [Ha | Ha]; try reflexivity.
  - exfalso. apply Rmult_integral in Hz. destruct Hz; [lra | contradiction].
  - exfalso. apply Hz. rewrite Ha. ring.
  - destruct (Rlt_dec 0 (c * a)) as [Hl | Hl];
      destruct (Rlt_dec 0 a) as [Hl' | Hl']; try reflexivity; exfalso.
    + apply Hl'. nra.
    + apply Hl. apply Rmult_lt_0_compat; assumption.
Qed.

Lemma fdiv_scaled (c a b : R) :
  0 < c -> fdiv (Num (c * a)) (Num (c * b)) = fdiv (Num a) (Num b).
Proof.
  intros Hc. unfold fdiv.
  destruct (Req_dec_T (c * b) 0) as [Hz | Hz];
    destruct (Req_dec_T b 0) as [Hb | Hb].
  - apply scale_inf_scaled. exact Hc.
  - exfalso. apply Rmult_integral in Hz. destruct Hz; [lra | contradiction].
  - exfalso. apply Hz. rewrite Hb. ring.
  - f_equal. field. split; [exact Hb | lra].
Qed.

Lemma cummax_from_scaled (c : R) (tl : list R) :
  0 < c ->
  forall m, cummax_from (c * m) (map (Rmult c) tl)
            = map (Rmult c) (cummax_from m tl).
Proof.
  intros Hc. induction tl as [| x tl' IH]; intros m; [reflexivity |].
  cbn [map cummax_from]. rewrite RmaxRmult by lra. rewrite IH. reflexivity.
Qed.

Lemma cummax_scaled (c : R) (ps : list R) :
  0 < c -> cummax (map (Rmult c) ps) = map (Rmult c) (cummax ps).
Proof.
  intros Hc. destruct ps as [| x tl]; [reflexivity |].
  cbn [map cummax]. rewrite cummax_from_scaled by exact Hc. reflexivity.
Qed.

Lemma map2_scaled {C : Type} (f : R -> R -> C) (c : R) (xs ys : list R) :
  (forall a b, f (c * a) (c * b) = f a b) ->
  map2 f (map (Rmult c) xs) (map (Rmult c) ys) = map2 f xs ys.
Proof.
  intros Hf. revert ys. induction xs as [| x tl IH]; intros ys; [reflexivity |].
  destruct ys as [| y ys']; [reflexivity |].
  cbn [map map2]. rewrite Hf, IH. reflexivity.
Qed.

Lemma max_drawdown_scaled (ps : Series R) (c : R) :
  0 < c -> max_drawdown (map (Rmult c) ps) = max_drawdown ps.
Proof.
  intros Hc. unfold max_drawdown.
  rewrite (cummax_scaled c ps Hc).
  rewrite map2_scaled; [reflexivity |].
  intros a b. rewrite (fdiv_scaled c a b Hc). reflexivity.
Qed.



Lemma growth_series_drawdown (p0 : R) (rest : list R) :
  Forall (fun p => 0 < p) (p0 :: rest) ->
  max_drawdown (cumprod (map (fun r => 1 + r) (simple_returns p0 rest)))
  = max_drawdown rest.
Proof.
  intros Hpos.
  assert (Hp0 : 0 < p0) by (inversion Hpos; assumption).
  assert (Hrest : Forall (fun p => 0 < p) rest) by (inversion Hpos; assumption).
  rewrite <- (max_drawdown_scaled
                (cumprod (map (fun r => 1 + r) (simple_returns p0 rest)))
                p0 Hp0).
  unfold cumprod. change (Rmult p0) with (fun g => p0 * g).
  rewrite (cumprod_simple_returns p0 rest 1 p0 Hp0 Hrest) by lra.
  reflexivity.
Qed.

Lemma frame_eta {A : Type} (df : DataFrame A) :
  df = mkDataFrame (nrows df) (columns df).
Proof. destruct df. reflexivity. Qed.

Lemma single_column_matmul (rs : list R) :
  matmul (mkDataFrame (length rs) [rs]) [1] = Ok rs.
Proof.
  rewrite matmul_aligned by reflexivity. f_equal.
  cbn [nrows].
  transitivity (map (fun t => nth t rs 0) (seq 0 (length rs)));
    [| apply map_nth_seq].
  apply map_ext. intros i. unfold row, dot, sum.
  cbn [columns map map2 fold_right]. ring.
Qed.

(** X15: in exact real arithmetic, for one asset held with weight 1: the
    simple returns that [to_returns] computes from a positive price
    series P_0, P_1, ..., passed to [portfolio_stats], give as
    max-drawdown entry the [max_drawdown] of P_1, P_2, ...: the growth
    series starts at [1 + r_1], so the move from P_0 to P_1 is not part
    of it. *)
Theorem single_asset_drawdown_skips_first_move :
  forall (p0 : R) (rest : list R) (rf : R) (p : Z),
    Forall (fun price => 0 < price) (p0 :: rest) ->
    exists rs d,
      to_returns (mkDataFrame (S (length rest)) [p0 :: rest]) "simple" true
      = Ok (mkDataFrame (length rs) [map Num rs]) /\
      portfolio_stats [1] (mkDataFrame (length rs) [rs]) rf p = Ok d /\
      dict_get d "max_drawdown" = Some (max_drawdown rest).
Proof.
  intros p0 rest rf p Hpos.
  set (prices := mkDataFrame (S (length rest)) [p0 :: rest]).
  assert (Hwf : well_formed prices) by (repeat constructor).
  assert (Hn : (0 < nrows prices)%nat) by (simpl; lia).
  assert (Hpp : positive_prices prices)
    by (constructor; [exact Hpos | constructor]).
  exists (simple_returns p0 rest).
  assert (Hlen : length (simple_returns p0 rest) = length rest)
    by apply length_changes.
  destruct (portfolio_stats_aligned [1]
              (mkDataFrame (length (simple_returns p0 rest))
                           [simple_returns p0 rest]) rf p eq_refl)
    as [port [cv [Hmm [_ Hstats]]]].
  rewrite single_column_matmul in Hmm. inversion Hmm; subst port.
  eexists. split; [| split; [exact Hstats |]].
  - change (to_returns prices "simple" true)
      with (Ok (dropna (frame_map pct_change prices))).
    f_equal. rewrite (frame_eta (dropna (frame_map pct_change prices))).
    rewrite (dropna_drops_first_row pct_change simple_returns
               pct_change_positive
               (fun q0 r => length_changes _ r q0) prices Hwf Hn Hpp).
    rewrite (dropna_row_count pct_change simple_returns pct_change_positive
               (fun q0 r => length_changes _ r q0) prices Hwf Hn Hpp)
      by discriminate.
    cbn [nrows columns prices map numbers_after_first].
    rewrite Hlen. f_equal. lia.
  - cbn [dict_get String.eqb Ascii.eqb Bool.eqb].
    rewrite (growth_series_drawdown p0 rest Hpos). reflexivity.
Qed.

Lemma single_asset_drawdown_skips_first_move_witness :
  exists rs d,
    to_returns (mkDataFrame 3 [[100; 90; 95]]) "simple" true
    = Ok (mkDataFrame (length rs) [map Num rs]) /\
    portfolio_stats [1] (mkDataFrame (length rs) [rs]) 0 252 = Ok d /\
    dict_get d "max_drawdown" = Some (max_drawdown [90; 95]).
Proof.
  apply (single_asset_drawdown_skips_first_move 100 [90; 95] 0 252).
  repeat constructor; lra.
Defined.

(** ** cvar: errors, range, order of the observations *)

(** X16: whatever the series, [cvar] raises (the [ValueError] of the
    quantile) when [alpha] is above 1, and raises nothing when [alpha] is
    between 0 and 1. *)
Theorem cvar_level_errors :
  forall (returns : Series R) (alpha : R),
    (1 < alpha -> exists e, cvar returns alpha = Raise e) /\
    (0 <= alpha <= 1 -> exists c, cvar returns alpha = Ok c).
Proof.
  intros returns alpha. unfold cvar, quantile. split.
  - intros H.
    destruct (Rle_dec 0 (1 - alpha)) as [H0 | H0]; [exfalso; lra |].
    cbn [bind]. eexists. reflexivity.
  - intros H.
    destruct (Rle_dec 0 (1 - alpha)) as [_ | H0]; [| exfalso; lra].
    destruct (Rle_dec (1 - alpha) 1) as [_ | H1]; [| exfalso; lra].
    destruct (sort returns); cbn [bind]; eexists; reflexivity.
Qed.

Lemma cvar_level_errors_witness :
  (exists e, cvar [0.01; -0.02; 0.03] 2 = Raise e) /\
  (exists c, cvar [0.01; -0.02; 0.03] 0.95 = Ok c).
Proof.
  split.
  - apply (proj1 (cvar_level_errors [0.01; -0.02; 0.03] 2)). lra.
  - apply (proj2 (cvar_level_errors [0.01; -0.02; 0.03] 0.95)). lra.
Defined.

Lemma sum_ge_bound (v : R) (l : list R) :
  (forall x, In x l -> v <= x) -> INR (length l) * v <= sum l.
Proof.
  unfold sum. induction l as [| a tl IH]; intros H.
  - simpl. lra.
  - change (length (a :: tl)) with (S (length tl)). rewrite S_INR.
    cbn [fold_right].
    assert (v <= a) by (apply H; left; reflexivity).
    assert (INR (length tl) * v <= fold_right Rplus 0 tl)
      by (apply IH; intros x Hx; apply H; right; exact Hx).
    lra.
Qed.

Lemma spec_mean_between (lo hi : R) (l : list R) :
  l <> [] -> (forall x, In x l -> lo <= x <= hi) ->
  lo <= spec_mean l <= hi.
Proof.
  intros Hne H. pose proof (INR_length_pos l Hne) as Hn.
  assert (Hlo : INR (length l) * lo <= sum l)
    by (apply sum_ge_bound; intros x Hx; apply H; exact Hx).
  assert (Hhi : sum l <= INR (length l) * hi)
    by (apply sum_le_bound; intros x Hx; apply H; exact Hx).
  unfold spec_mean. split.
  - apply (Rmult_le_reg_r (INR (length l))); [exact Hn |].
    unfold Rdiv. rewrite Rmult_assoc, Rinv_l by lra. lra.
  - apply (Rmult_le_reg_r (INR (length l))); [exact Hn |].
    unfold Rdiv. rewrite Rmult_assoc, Rinv_l by lra. lra.
Qed.

(** The tail that [cvar] averages: not empty, and made of observations. *)
Lemma cvar_tail (returns : Series R) (alpha : R) :
  returns <> [] -> 0 <= alpha <= 1 ->
  exists q tail,
    quantile returns (1 - alpha) = Ok (Num q) /\
    tail = filter (fun r => if Rle_dec r q then true else false) returns /\
    tail <> [] /\
    cvar returns alpha = Ok (Num (- spec_mean tail)).
Proof.
  intros Hne Halpha.
  destruct (quantile_above_an_observation returns (1 - alpha) Hne
              ltac:(lra)) as [q [a [Hquant [Hin Haq]]]].
  exists q. eexists. split; [exact Hquant |]. split; [reflexivity |].
  set (tail := filter (fun r => if Rle_dec r q then true else false) returns).
  assert (Htail : In a tail).
  { apply filter_In. split; [exact Hin |].
    destruct (Rle_dec a q); [reflexivity | contradiction]. }
  assert (Htne : tail <> []) by (intros E; rewrite E in Htail; exact Htail).
  split; [exact Htne |].
  unfold cvar. rewrite Hquant. cbn [bind fle]. fold tail.
  rewrite (mean_nonempty tail Htne). reflexivity.
Qed.

(** X17: in exact real arithmetic, for [alpha] between 0 and 1 and a
    non-empty series, [cvar] is a number between the negated largest and
    the negated smallest observation. *)
Theorem cvar_within_observations :
  forall (returns : Series R) (alpha lo hi : R),
    returns <> [] -> 0 <= alpha <= 1 ->
    (forall x, In x returns -> lo <= x <= hi) ->
    exists c, cvar returns alpha = Ok (Num c) /\ - hi <= c <= - lo.
Proof.
  intros returns alpha lo hi Hne Halpha Hbounds.
  destruct (cvar_tail returns alpha Hne Halpha)
    as [q [tail [_ [Htail [Htne Hcvar]]]]].
  eexists. split; [exact Hcvar |].
  assert (Hin : forall x, In x tail -> lo <= x <= hi).
  { intros x Hx. rewrite Htail in Hx. apply filter_In in Hx.
    apply Hbounds. apply Hx. }
  pose proof (spec_mean_between lo hi tail Htne Hin). lra.
Qed.

Lemma cvar_within_observations_witness :
  exists c, cvar [0.01; -0.02; 0.03] 0.95 = Ok (Num c) /\
            - (0.03) <= c <= - (-0.02).
Proof.
  apply (cvar_within_observations [0.01; -0.02; 0.03] 0.95 (-0.02) 0.03).
  - discriminate.
  - lra.
  - intros x [<- | [<- | [<- | []]]]; lra.
Defined.

Lemma length_insert_sorted (x : R) (s : list R) :
  length (insert_sorted x s) = S (length s).
Proof.
  induction s as [| y tl IH]; cbn [insert_sorted]; [reflexivity |].
  destruct (Rle_dec x y); cbn [length]; [reflexivity | rewrite IH; reflexivity].
Qed.

Lemma length_sort (xs : list R) : length (sort xs) = length xs.
Proof.
  unfold sort. induction xs as [| x tl IH]; cbn [fold_right length];
    [reflexivity |].
  rewrite length_insert_sorted, IH. reflexivity.
Qed.

Lemma sorted_head_least (s0 : R) (s' : list R) :
  Sorted Rle (s0 :: s') -> forall x, In x (s0 :: s') -> s0 <= x.
Proof.
  intros Hs x [<- | Hx]; [lra |].
  assert (Htrans : Relations_1.Transitive Rle)
    by (intros a b c; apply Rle_trans).
  pose proof (Sorted_extends Htrans Hs) as Hall.
  rewrite Forall_forall in Hall. apply Hall. exact Hx.
Qed.

Lemma sorted_nth_le (s : list R) (d : R) :
  Sorted Rle s ->
  forall k i, (i + k < length s)%nat -> nth i s d <= nth (i + k) s d.
Proof.
  intros Hs. induction k as [| k IH]; intros i Hi.
  - rewrite Nat.add_0_r. lra.
  - eapply Rle_trans; [apply (IH i); lia |].
    replace (i + S k)%nat with (S (i + k)) by lia.
    apply sorted_adjacent; [exact Hs | lia].
Qed.

(** The quantile at level 0 is the least observation, at level 1 the
    greatest. *)
Lemma quantile_zero_least (xs : Series R) :
  xs <> [] ->
  exists m, quantile xs 0 = Ok (Num m) /\ In m xs /\
            (forall x, In x xs -> m <= x).
Proof.
  intros Hne. unfold quantile.
  destruct (Rle_dec 0 0) as [_ | Hc]; [| exfalso; lra].
  destruct (Rle_dec 0 1) as [_ | Hc]; [| exfalso; lra].
  destruct (sort xs) as [| s0 s'] eqn:Hs.
  - exfalso. destruct xs as [| x tl]; [contradiction |].
    assert (Hin : In x (sort (x :: tl))) by (apply in_sort; left; reflexivity).
    rewrite Hs in Hin. exact Hin.
  - exists s0. rewrite Rmult_0_r.
    assert (Hfloor : Int_part 0 = 0%Z)
      by (symmetry; apply Int_part_spec; simpl; lra).
    rewrite Hfloor. cbn [Z.to_nat nth]. split; [do 2 f_equal; ring |].
    split.
    + apply in_sort. rewrite Hs. left. reflexivity.
    + intros x Hx. apply (sorted_head_least s0 s').
      * rewrite <- Hs. apply sort_sorted.
      * rewrite <- Hs. apply in_sort. exact Hx.
Qed.

Lemma quantile_one_greatest (xs : Series R) :
  xs <> [] ->
  exists m, quantile xs 1 = Ok (Num m) /\ In m xs /\
            (forall x, In x xs -> x <= m).
Proof.
  intros Hne. unfold quantile.
  destruct (Rle_dec 0 1) as [_ | Hc]; [| exfalso; lra].
  destruct (Rle_dec 1 1) as [_ | Hc]; [| exfalso; lra].
  pose proof (length_sort xs) as Hlen.
  pose proof (sort_sorted xs) as Hsorted.
  destruct (sort xs) as [| s0 s'] eqn:Hs.
  - destruct xs; [contradiction | discriminate Hlen].
  - rewrite Rmult_1_r, Int_part_INR, Nat2Z.id.
    remember (s0 :: s') as s eqn:Es.
    assert (Hlast : (length xs - 1 < length s)%nat)
      by (rewrite Hlen; destruct xs; [contradiction | simpl; lia]).
    exists (nth (length xs - 1) s s0). split; [| split].
    + rewrite (nth_overflow s (n := S (length xs - 1))) by lia.
      do 2 f_equal. ring.
    + apply in_sort. rewrite Hs. apply nth_In. exact Hlast.
    + intros x Hx.
      assert (Hxs : In x s) by (rewrite <- Hs; apply in_sort; exact Hx).
      destruct (In_nth s x s0 Hxs) as [i [Hi <-]].
      replace (length xs - 1)%nat with (i + (length xs - 1 - i))%nat by lia.
      apply sorted_nth_le; [exact Hsorted | lia].
Qed.

Lemma filter_all (v : R) (l : list R) :
  (forall x, In x l -> x <= v) ->
  filter (fun r => if Rle_dec r v then true else false) l = l.
Proof.
  intros H. apply forallb_filter_id. apply forallb_forall. intros x Hx.
  destruct (Rle_dec x v) as [_ | Hc]; [reflexivity |].
  exfalso. apply Hc. apply H. exact Hx.
Qed.

(** X18: in exact real arithmetic, at [alpha = 1] the tail is reduced to
    the copies of the smallest observation, and [cvar] of a non-empty
    series is the negated smallest observation. *)
Theorem cvar_alpha_one_is_worst_loss :
  forall returns : Series R,
    returns <> [] ->
    exists m,
      In m returns /\ (forall x, In x returns -> m <= x) /\
      cvar returns 1 = Ok (Num (- m)).
Proof.
  intros returns Hne.
  destruct (quantile_zero_least returns Hne) as [m [Hq [Hin Hleast]]].
  exists m. split; [exact Hin |]. split; [exact Hleast |].
  unfold cvar. replace (1 - 1) with 0 by lra. rewrite Hq. cbn [bind fle].
  set (tail := filter (fun r => if Rle_dec r m then true else false) returns).
  assert (Htail : In m tail).
  { apply filter_In. split; [exact Hin |].
    destruct (Rle_dec m m); [reflexivity | exfalso; lra]. }
  assert (Htne : tail <> []) by (intros E; rewrite E in Htail; exact Htail).
  rewrite (mean_nonempty tail Htne). cbn [fneg]. do 2 f_equal.
  assert (Hall : forall x, In x tail -> m <= x <= m).
  { intros x Hx. apply filter_In in Hx. destruct Hx as [Hx Hle].
    destruct (Rle_dec x m); [| discriminate]. split; [apply Hleast; exact Hx | lra]. }
  pose proof (spec_mean_between m m tail Htne Hall). lra.
Qed.

Lemma cvar_alpha_one_is_worst_loss_witness :
  exists m,
    In m [0.01; -0.02; 0.03] /\
    (forall x, In x [0.01; -0.02; 0.03] -> m <= x) /\
    cvar [0.01; -0.02; 0.03] 1 = Ok (Num (- m)).
Proof.
  apply (cvar_alpha_one_is_worst_loss [0.01; -0.02; 0.03]). discriminate.
Defined.

(** X19: at [alpha = 0] the tail is the whole series, and [cvar] of a
    non-empty series is its negated mean. *)
Theorem cvar_alpha_zero_is_mean_loss :
  forall returns : Series R,
    returns <> [] ->
    cvar returns 0 = Ok (Num (- spec_mean returns)).
Proof.
  intros returns Hne.
  destruct (quantile_one_greatest returns Hne) as [m [Hq [_ Hgreatest]]].
  unfold cvar. replace (1 - 0) with 1 by lra. rewrite Hq. cbn [bind fle].
  rewrite (filter_all m returns Hgreatest).
  rewrite (mean_nonempty returns Hne). reflexivity.
Qed.

Lemma cvar_alpha_zero_is_mean_loss_witness :
  cvar [0.01; -0.02; 0.03] 0
  = Ok (Num (- spec_mean [0.01; -0.02; 0.03])).
Proof.
  apply (cvar_alpha_zero_is_mean_loss [0.01; -0.02; 0.03]). discriminate.
Defined.

Lemma insert_sorted_comm (x y : R) (s : list R) :
  insert_sorted x (insert_sorted y s) = insert_sorted y (insert_sorted x s).
Proof.
  induction s as [| z tl IH].
  - cbn [insert_sorted].
    destruct (Rle_dec x y); destruct (Rle_dec y x); try reflexivity.
    + assert (x = y) by lra. subst. reflexivity.
    + exfalso. lra.
  - cbn [insert_sorted].
    destruct (Rle_dec y z) as [Hyz | Hyz];
      destruct (Rle_dec x z) as [Hxz | Hxz]; cbn [insert_sorted].
    + destruct (Rle_dec x y); destruct (Rle_dec y x);
        destruct (Rle_dec x z); destruct (Rle_dec y z);
        try reflexivity; try (exfalso; lra).
      assert (x = y) by lra. subst. reflexivity.
    + destruct (Rle_dec x y); destruct (Rle_dec y z);
        destruct (Rle_dec x z);
        try reflexivity; try (exfalso; lra).
    + destruct (Rle_dec y x); destruct (Rle_dec x z);
        destruct (Rle_dec y z);
        try reflexivity; try (exfalso; lra).
    + destruct (Rle_dec x z); destruct (Rle_dec y z);
        try (exfalso; lra).
      rewrite IH. reflexivity.
Qed.

Lemma sort_permutation (xs ys : list R) :
  Permutation xs ys -> sort xs = sort ys.
Proof.
  unfold sort. induction 1 as [| x l l' _ IH | x y l | l l' l'' _ IH1 _ IH2];
    cbn [fold_right].
  - reflexivity.
  - rewrite IH. reflexivity.
  - apply insert_sorted_comm.
  - rewrite IH1. exact IH2.
Qed.

Lemma filter_permutation_stats (keep : R -> bool) (xs ys : list R) :
  Permutation xs ys ->
  sum (filter keep xs) = sum (filter keep ys) /\
  length (filter keep xs) = length (filter keep ys).
Proof.
  unfold sum.
  induction 1 as [| x l l' _ [IHs IHl] | x y l
                  | l l' l'' _ [IH1s IH1l] _ [IH2s IH2l]]; cbn [filter].
  - split; reflexivity.
  - destruct (keep x); cbn [fold_right length]; split; congruence.
  - destruct (keep x); destruct (keep y); cbn [fold_right length];
      split; try reflexivity; lra.
  - split; congruence.
Qed.

Lemma mean_same_stats (l l' : list R) :
  sum l = sum l' -> length l = length l' -> mean l = mean l'.
Proof.
  intros Hs Hl. destruct l as [| a tl]; destruct l' as [| b tl'];
    try discriminate Hl; [reflexivity |].
  unfold mean. rewrite Hs, Hl. reflexivity.
Qed.

(** X20: in exact real arithmetic, [cvar] depends on the observations,
    not on their order: two series that are permutations of each other
    have the same [cvar], the same error included, at every [alpha]. *)
Theorem cvar_permutation_invariant :
  forall (xs ys : Series R) (alpha : R),
    Permutation xs ys -> cvar xs alpha = cvar ys alpha.
Proof.
  intros xs ys alpha Hperm.
  assert (Hq : quantile xs (1 - alpha) = quantile ys (1 - alpha)).
  { unfold quantile.
    rewrite (sort_permutation xs ys Hperm), (Permutation_length Hperm).
    reflexivity. }
  unfold cvar. rewrite Hq.
  destruct (quantile ys (1 - alpha)) as [q | e]; cbn [bind]; [| reflexivity].
  destruct (filter_permutation_stats (fun r => fle (Num r) q) xs ys Hperm)
    as [Hs Hl].
  rewrite (mean_same_stats _ _ Hs Hl). reflexivity.
Qed.

Lemma cvar_permutation_invariant_witness :
  cvar [0.01; -0.02; 0.03] 0.95 = cvar [-0.02; 0.01; 0.03] 0.95.
Proof.
  apply (cvar_permutation_invariant [0.01; -0.02; 0.03] [-0.02; 0.01; 0.03]).
  apply perm_swap.
Defined.

(** ** portfolio_stats: errors, empty table, composition *)

(** X21: [portfolio_stats] raises exactly when the number of weights
    differs from the number of columns; otherwise it returns a dict. *)
Theorem portfolio_stats_raises_iff :
  forall (w : list R) (returns : DataFrame R) (rf : R) (p : Z),
    (exists e, portfolio_stats w returns rf p = Raise e) <->
    length (columns returns) <> length w.
Proof.
  intros w returns rf p. split.
  - intros [e He] Hlen.
    destruct (portfolio_stats_aligned w returns rf p Hlen)
      as [port [cv [_ [_ Hstats]]]].
    rewrite Hstats in He. discriminate He.
  - intros Hlen. unfold portfolio_stats, matmul.
    destruct (Nat.eqb_spec (length (columns returns)) (length w));
      [contradiction |].
    cbn [bind]. eexists. reflexivity.
Qed.

Lemma cvar_empty : cvar [] 0.95 = Ok NaN.
Proof.
  unfold cvar, quantile.
  destruct (Rle_dec 0 (1 - 0.95)) as [_ | Hc]; [| exfalso; lra].
  destruct (Rle_dec (1 - 0.95) 1) as [_ | Hc]; [| exfalso; lra].
  reflexivity.
Qed.

(** X22: on a table without rows, [portfolio_stats] raises nothing and
    every one of its five statistics is NaN. *)
Theorem portfolio_stats_no_rows :
  forall (w : list R) (cols : list (Series R)) (rf : R) (p : Z),
    length cols = length w ->
    portfolio_stats w (mkDataFrame 0 cols) rf p
    = Ok [("ann_return"%string, NaN); ("ann_vol"%string, NaN);
          ("sharpe"%string, NaN); ("max_drawdown"%string, NaN);
          ("cvar_95"%string, NaN)].
Proof.
  intros w cols rf p Hlen.
  unfold portfolio_stats.
  rewrite (matmul_aligned (mkDataFrame 0 cols) w Hlen).
  cbn [bind nrows seq map]. rewrite cvar_empty. cbn [bind].
  reflexivity.
Qed.

Lemma portfolio_stats_no_rows_witness :
  portfolio_stats [0.5; 0.5] (mkDataFrame 0 [[]; []]) 0 252
  = Ok [("ann_return"%string, NaN); ("ann_vol"%string, NaN);
        ("sharpe"%string, NaN); ("max_drawdown"%string, NaN);
        ("cvar_95"%string, NaN)].
Proof.
  apply (portfolio_stats_no_rows [0.5; 0.5] [[]; []] 0 252). reflexivity.
Defined.

Section WeightedSums.






End WeightedSums.



(** X24: in exact real arithmetic, on a table with at least one row and
    non-negative periods per year, the Sharpe entry of [portfolio_stats]
    is the annualized return minus [rf] over a denominator of at least
    [1e-12], also when the volatility is zero: it is positive exactly
    when the annualized return exceeds [rf], and its magnitude is at most
    [1e12] times the gap between them. *)
Theorem portfolio_sharpe_sign_and_bound :
  forall (w : list R) (returns : DataFrame R) (rf : R) (p : Z),
    (0 < nrows returns)%nat -> length (columns returns) = length w ->
    (0 <= p)%Z ->
    exists d a s,
      portfolio_stats w returns rf p = Ok d /\
      dict_get d "ann_return" = Some (Num a) /\
      dict_get d "sharpe" = Some (Num s) /\
      (0 < s <-> rf < a) /\
      Rabs s <= Rabs (a - rf) * 1e12.
Proof.
  intros w returns rf p Hn Hlen Hp.
  destruct (portfolio_stats_aligned w returns rf p Hlen)
    as [port [cv [Hmm [_ Hstats]]]].
  assert (Hne : port <> []).
  { rewrite (matmul_aligned returns w Hlen) in Hmm. inversion Hmm.
    destruct (nrows returns); [lia | discriminate]. }
  pose proof (population_std_nonneg port) as Hsd.
  pose proof (sqrt_pos (IZR p)) as Hsq.
  set (a := spec_mean port * IZR p).
  set (den := population_std port * sqrt (IZR p) + 1e-12).
  assert (Hden : 1e-12 <= den).
  { unfold den.
    assert (0 <= population_std port * sqrt (IZR p))
      by (apply Rmult_le_pos; assumption).
    lra. }
  eexists. exists a, ((a - rf) / den).
  split; [exact Hstats |].
  cbn [dict_get String.eqb Ascii.eqb Bool.eqb].
  rewrite (mean_nonempty port Hne), (std_population port Hne),
    (fsqrt_periods p Hp).
  cbn [fmul fsub fneg fadd]. fold a. fold den.
  split; [reflexivity |]. split; [rewrite fdiv_num by lra; reflexivity |].
  assert (Hinv : 0 < / den) by (apply Rinv_0_lt_compat; lra).
  split.
  - unfold Rdiv. split; intros H.
    + assert (0 < a - rf) by nra. lra.
    + apply Rmult_lt_0_compat; lra.
  - unfold Rdiv. rewrite Rabs_mult, (Rabs_right (/ den)) by lra.
    apply Rmult_le_compat_l; [apply Rabs_pos |].
    replace 1e12 with (/ 1e-12) by lra.
    apply Rinv_le_contravar; lra.
Qed.

Lemma portfolio_sharpe_sign_and_bound_witness :
  exists d a s,
    portfolio_stats [1] (mkDataFrame 3 [[0.01; 0.01; 0.01]]) 0.001 252
    = Ok d /\
    dict_get d "ann_return" = Some (Num a) /\
    dict_get d "sharpe" = Some (Num s) /\
    (0 < s <-> 0.001 < a) /\
    Rabs s <= Rabs (a - 0.001) * 1e12.
Proof.
  apply (portfolio_sharpe_sign_and_bound [1] (mkDataFrame 3 [[0.01; 0.01; 0.01]])
           0.001 252).
  - simpl. lia.
  - reflexivity.
  - lia.
Defined.





(** ** max_sharpe_weights: what the solver is given *)

Lemma equal_weights_within_unit_bounds (n k : nat) :
  (0 < n)%nat ->
  Forall2 (fun x (b : R * R) => fst b <= x <= snd b)
          (map (fun one => one / INR n) (repeat 1 k)) (repeat (0, 1) k).
Proof.
  intros Hn. assert (HnR : 1 <= INR n) by (apply (le_INR 1); lia).
  induction k as [| k IH]; cbn [repeat map]; constructor; [| exact IH].
  cbn [fst snd]. split.
  - apply Rlt_le, Rdiv_lt_0_compat; lra.
  - apply (Rmult_le_reg_r (INR n)); [lra |].
    unfold Rdiv. rewrite Rmult_assoc, Rinv_l by lra. lra.
Qed.

(** X26: with the default bounds and the default initial guess, on a
    table with at least one column, the point [max_sharpe_weights] starts
    the solver from has one weight per column, and every weight lies
    inside its bound [0, 1]. *)
Theorem max_sharpe_default_start_within_bounds :
  forall (returns : DataFrame R) (rf : R) (p : Z),
    (0 < length (columns returns))%nat ->
    exists objective x0 bounds constraint,
      (forall minimize,
         max_sharpe_weights minimize returns rf None p None
         = minimize objective x0 bounds constraint) /\
      length x0 = length (columns returns) /\
      bounds = repeat (0, 1) (length (columns returns)) /\
      Forall2 (fun x (b : R * R) => fst b <= x <= snd b) x0 bounds.
Proof.
  intros returns rf p Hn.
  do 4 eexists. split; [intros minimize; reflexivity |].
  split; [rewrite length_map, repeat_length; reflexivity |].
  split; [reflexivity |].
  apply equal_weights_within_unit_bounds. exact Hn.
Qed.

Lemma max_sharpe_default_start_within_bounds_witness :
  exists objective x0 bounds constraint,
    (forall minimize,
       max_sharpe_weights minimize scenario_a_returns 0 None 252 None
       = minimize objective x0 bounds constraint) /\
    length x0 = 2%nat /\
    bounds = repeat (0, 1) 2 /\
    Forall2 (fun x (b : R * R) => fst b <= x <= snd b) x0 bounds.
Proof.
  apply (max_sharpe_default_start_within_bounds scenario_a_returns 0 252).
  simpl. lia.
Defined.

(** X27: the objective [max_sharpe_weights] hands to the solver returns,
    at every weight vector with one weight per column, the negated Sharpe
    entry of [portfolio_stats] (NaN when that entry is NaN), and raises,
    as [portfolio_stats] does, at a vector of any other length. *)
Theorem max_sharpe_objective_negates_sharpe :
  forall (returns : DataFrame R) (rf : R) (p : Z)
         (bounds : option (list (R * R))) (x0 : option (list R)),
    exists objective start bnds constraint,
      (forall minimize,
         max_sharpe_weights minimize returns rf bounds p x0
         = minimize objective start bnds constraint) /\
      (forall w, length w = length (columns returns) ->
                 exists d s,
                   portfolio_stats w returns rf p = Ok d /\
                   dict_get d "sharpe" = Some s /\
                   objective w = Ok (fneg s)) /\
      (forall w, length w <> length (columns returns) ->
                 exists e,
                   portfolio_stats w returns rf p = Raise e /\
                   objective w = Raise e).
Proof.
  intros returns rf p bounds x0.
  do 4 eexists. split; [intros minimize; reflexivity |]. split.
  - intros w Hlen.
    destruct (portfolio_stats_aligned w returns rf p (eq_sym Hlen))
      as [port [cv [_ [_ Hstats]]]].
    eexists. eexists. split; [exact Hstats |].
    split; [reflexivity |].
    cbv beta. rewrite Hstats. reflexivity.
  - intros w Hlen.
    assert (Hraise : portfolio_stats w returns rf p
                     = Raise (ValueError "Dot product shape mismatch")).
    { unfold portfolio_stats, matmul.
      destruct (Nat.eqb_spec (length (columns returns)) (length w)) as [E | _];
        [exfalso; apply Hlen; symmetry; exact E | reflexivity]. }
    eexists. split; [exact Hraise |].
    cbv beta. rewrite Hraise. reflexivity.
Qed.

(* ================================================================== *)
(** * What binary64 rounding changes *)

Module Float64Facts.

Import PrimFloat.
Local Open Scope float_scope.
Local Set Warnings "-inexact-float".




(** On the constant series 0.5, 0.5, 0.5 the mean is exact, the
    denominator is zero and the quotient is infinite. *)
Lemma sharpe_ratio_constant_series_zero :
  Float64.sharpe_ratio_den [0.5; 0.5; 0.5] 0 252 = 0 /\
  Float64.sharpe_ratio [0.5; 0.5; 0.5] 0 252 = infinity.
Proof. vm_compute. repeat split. Qed.

End Float64Facts.
